(** * w1_ds2432: the DS2432 (family B3) 1-Wire EEPROM driver

    A shallow embedding of [w1_ds2432.c] and the properties of its MAC engine
    and of its bus protocol.

    Integers of the C code are [Z] with the truncation of every store written
    out ([u8], [u16], [u32], [size_t], [ssize_t]); C arrays are lists that are
    read with [!!!] and written with [<[i:=x]>] (a read past the end of a
    list, which the C code never does on the arrays it owns, gives the
    default of the type); the functions that talk to the 1-Wire bus run in a
    state monad over the slave, whose master records every bus operation in
    a trace. *)

From Stdlib Require Import ZArith List Lia Bool.
From stdpp Require Import base list.

Local Open Scope Z_scope.

(** ** Machine integers *)

Definition u8 (x : Z) : Z := x mod 2 ^ 8.
Definition u16 (x : Z) : Z := x mod 2 ^ 16.
Definition u32 (x : Z) : Z := x mod 2 ^ 32.

(** [rol32] of [linux/bitops.h]:
    [(word << (shift & 31)) | (word >> ((-shift) & 31))] on [__u32]. *)
Definition rol32 (word shift : Z) : Z :=
  Z.lor (u32 (Z.shiftl word (Z.land shift 31)))
        (Z.shiftr word (Z.land (- shift) 31)).

(** [be32_to_cpu] of word [i] of [in], which is read as an array of
    [__be32]: the four bytes at [4 * i], the first one the most significant. *)
Definition be32_to_cpu_at (in_ : list Z) (i : nat) : Z :=
  Z.lor (Z.shiftl (in_ !!! (4 * i)%nat) 24)
    (Z.lor (Z.shiftl (in_ !!! (4 * i + 1)%nat) 16)
       (Z.lor (Z.shiftl (in_ !!! (4 * i + 2)%nat) 8)
          (in_ !!! (4 * i + 3)%nat))).

(** [for (i = lo; i < lo + n; i++) body]: the loop state is threaded through
    the [n] iterations. *)
Fixpoint for_loop {St : Type} (n : nat) (i : nat) (body : nat -> St -> St)
    (s : St) : St :=
  match n with
  | O => s
  | S n' => for_loop n' (S i) body (body i s)
  end.

(** ** The MAC transform *)

Record sha1 : Type := Sha1 {
  sha1_a : Z;
  sha1_b : Z;
  sha1_c : Z;
  sha1_d : Z;
  sha1_e : Z
}.

Definition f1 (x y z : Z) : Z := Z.lxor z (Z.land x (Z.lxor y z)).
Definition f2 (x y z : Z) : Z := Z.lxor (Z.lxor x y) z.
Definition f3 (x y z : Z) : Z := u32 (Z.land x y + Z.land z (Z.lxor x y)).

Definition K1 : Z := 0x5A827999.
Definition K2 : Z := 0x6ED9EBA1.
Definition K3 : Z := 0x8F1BBCDC.
Definition K4 : Z := 0xCA62C1D6.

(** The first loop of [maxim_sha_transform]: the sixteen words of the block. *)
Definition load_block (in_ : list Z) (workspace : list Z) : list Z :=
  for_loop 16 0 (fun i ws => <[i := be32_to_cpu_at in_ i]> ws) workspace.

(** The second loop: [workspace[i + 16]] from the four earlier words. *)
Definition expand_block (workspace : list Z) : list Z :=
  for_loop 64 0
    (fun i ws =>
       <[(i + 16)%nat :=
           rol32 (Z.lxor (Z.lxor (Z.lxor (ws !!! (i + 13)%nat)
                                         (ws !!! (i + 8)%nat))
                                 (ws !!! (i + 2)%nat))
                         (ws !!! i)) 1]> ws)
    workspace.

(** The body shared by the four round loops; [t] is a [u32], so the sum,
    whatever the width of the [long] constants, is kept modulo [2 ^ 32]. *)
Definition sha_round (f : Z -> Z -> Z -> Z) (K : Z) (workspace : list Z)
    (i : nat) (s : sha1) : sha1 :=
  let t := u32 (f (sha1_b s) (sha1_c s) (sha1_d s) + K + rol32 (sha1_a s) 5
                + sha1_e s + workspace !!! i) in
  {| sha1_a := t;
     sha1_b := sha1_a s;
     sha1_c := rol32 (sha1_b s) 30;
     sha1_d := sha1_c s;
     sha1_e := sha1_d s |}.

Definition sha_init : sha1 :=
  {| sha1_a := 0x67452301;
     sha1_b := 0xefcdab89;
     sha1_c := 0x98badcfe;
     sha1_d := 0x10325476;
     sha1_e := 0xc3d2e1f0 |}.

Definition maxim_sha_transform (in_ : list Z) : sha1 :=
  let workspace := expand_block (load_block in_ (replicate 80 0)) in
  let s := for_loop 20 0 (sha_round f1 K1 workspace) sha_init in
  let s := for_loop 20 20 (sha_round f2 K2 workspace) s in
  let s := for_loop 20 40 (sha_round f3 K3 workspace) s in
  let s := for_loop 20 60 (sha_round f2 K4 workspace) s in
  s.

(** ** SHA-1 as FIPS 180 defines it, for comparison *)

Module FIPS180.

Definition Ch (x y z : Z) : Z := Z.lor (Z.land x y) (Z.land (Z.lnot x) z).
Definition Parity (x y z : Z) : Z := Z.lxor x (Z.lxor y z).
Definition Maj (x y z : Z) : Z :=
  Z.lor (Z.land x y) (Z.lor (Z.land x z) (Z.land y z)).

Definition f (t : nat) : Z -> Z -> Z -> Z :=
  if (t <? 20)%nat then Ch
  else if (t <? 40)%nat then Parity
  else if (t <? 60)%nat then Maj
  else Parity.

Definition K (t : nat) : Z :=
  if (t <? 20)%nat then 0x5a827999
  else if (t <? 40)%nat then 0x6ed9eba1
  else if (t <? 60)%nat then 0x8f1bbcdc
  else 0xca62c1d6.

Definition H0 : sha1 :=
  Sha1 0x67452301 0xefcdab89 0x98badcfe 0x10325476 0xc3d2e1f0.

(** The sixteen words of a block, each from four bytes, big-endian. *)
Fixpoint words (bytes : list Z) (n : nat) : list Z :=
  match n, bytes with
  | S n', b0 :: b1 :: b2 :: b3 :: rest =>
      (b0 * 2 ^ 24 + b1 * 2 ^ 16 + b2 * 2 ^ 8 + b3) :: words rest n'
  | _, _ => []
  end.

(** The message schedule: [W_t = ROTL1 (W_(t-3) xor W_(t-8) xor W_(t-14)
    xor W_(t-16))]; [schedule n M] is [W_0 .. W_(15+n)]. *)
Fixpoint schedule (n : nat) (M : list Z) : list Z :=
  match n with
  | O => M
  | S n' =>
      let W := schedule n' M in
      let t := length W in
      W ++ [rol32 (Z.lxor (W !!! (t - 3)%nat)
                    (Z.lxor (W !!! (t - 8)%nat)
                       (Z.lxor (W !!! (t - 14)%nat) (W !!! (t - 16)%nat))))
              1]
  end.

(** One round: [T = ROTL5 a + f_t (b, c, d) + e + K_t + W_t]. *)
Definition round (s : sha1) (tw : nat * Z) : sha1 :=
  let '(t, Wt) := tw in
  Sha1 (u32 (rol32 (sha1_a s) 5 + f t (sha1_b s) (sha1_c s) (sha1_d s)
             + sha1_e s + K t + Wt))
       (sha1_a s) (rol32 (sha1_b s) 30) (sha1_c s) (sha1_d s).

(** The working variables after the eighty rounds over one block. *)
Definition working_variables (block : list Z) : sha1 :=
  fold_left round (zip (seq 0 80) (schedule 64 (words block 16))) H0.

(** The step this driver leaves out: the working variables added to the
    initial hash value. *)
Definition compress (block : list Z) : sha1 :=
  let s := working_variables block in
  Sha1 (u32 (sha1_a H0 + sha1_a s)) (u32 (sha1_b H0 + sha1_b s))
       (u32 (sha1_c H0 + sha1_c s)) (u32 (sha1_d H0 + sha1_d s))
       (u32 (sha1_e H0 + sha1_e s)).

End FIPS180.

(** The padded one-block message of the three bytes [abc]. *)
Definition abc_block : list Z :=
  [0x61; 0x62; 0x63; 0x80] ++ replicate 59 0 ++ [0x18].

(** ** The authentication message *)

(** [generate_mac]: the 64 bytes of the message, then the transform.  The
    slave argument is not used by the C function and is left out. *)
Definition mac_message (secret scratchpad : list Z) (memory_page : Z)
    (data_memory_page serial_number : list Z) : list Z :=
  let message := replicate 64 0 in
  let message :=
    for_loop 4 0 (fun i m => <[i := secret !!! i]> m) message in
  let message :=
    for_loop 28 4 (fun i m => <[i := data_memory_page !!! (i - 4)%nat]> m)
      message in
  let message :=
    for_loop 8 32 (fun i m => <[i := scratchpad !!! (i - 32)%nat]> m)
      message in
  let message :=
    <[40%nat := u8 (Z.shiftr (Z.land memory_page 0xf0) 5)]> message in
  let message :=
    for_loop 7 41 (fun i m => <[i := serial_number !!! (i - 41)%nat]> m)
      message in
  let message :=
    for_loop 4 48 (fun i m => <[i := secret !!! (i - 44)%nat]> m) message in
  let message := <[52%nat := 0xff]> message in
  let message := <[53%nat := 0xff]> message in
  let message := <[54%nat := 0xff]> message in
  let message := <[55%nat := 0x80]> message in
  let message := <[56%nat := 0x00]> message in
  let message := <[57%nat := 0x00]> message in
  let message := <[58%nat := 0x00]> message in
  let message := <[59%nat := 0x00]> message in
  let message := <[60%nat := 0x00]> message in
  let message := <[61%nat := 0x00]> message in
  let message := <[62%nat := 0x01]> message in
  let message := <[63%nat := 0xb8]> message in
  message.

(** The constants that [generate_mac] stores at [message[52 .. 64)]. *)
Definition mac_padding : list Z :=
  [0xff; 0xff; 0xff; 0x80; 0x00; 0x00; 0x00; 0x00; 0x00; 0x00; 0x01; 0xb8].

Definition generate_mac (secret scratchpad : list Z) (memory_page : Z)
    (data_memory_page serial_number : list Z) : sha1 :=
  maxim_sha_transform
    (mac_message secret scratchpad memory_page data_memory_page
       serial_number).

(** ** Constants *)

Definition DS2432_WRITE_SCRATCHPAD : Z := 0x0F.
Definition DS2432_READ_SCRATCHPAD : Z := 0xAA.
Definition DS2432_COPY_SCRATCHPAD : Z := 0x55.
Definition DS2432_LOAD_FIRST_SECRET : Z := 0x5A.
Definition DS2432_READ_MEMORY : Z := 0xF0.

Definition W1_DS2432_SECRET_ADDR : Z := 0x80.
Definition W1_DS2432_DATA_MEMORY_SIZE : Z := 0x80.

(** The error numbers of [errno-base.h]. *)
Definition EPERM : Z := 1.
Definition EIO : Z := 5.
Definition EACCES : Z := 13.

(** [size_t], [ssize_t] and [loff_t] are 64 bits wide and [int] is 32 (LP64);
    a conversion to an unsigned type wraps, one to a signed type reads the
    same bits in two's complement. *)
Definition size_t (x : Z) : Z := x mod 2 ^ 64.
Definition ssize_t (x : Z) : Z := (x + 2 ^ 63) mod 2 ^ 64 - 2 ^ 63.
Definition int (x : Z) : Z := (x + 2 ^ 31) mod 2 ^ 32 - 2 ^ 31.

(** [w1_b3_fix_count]: [off] is a [loff_t], compared and added as an unsigned
    64-bit value. *)
Definition w1_b3_fix_count (off count size : Z) : Z :=
  if size_t off >? size then 0
  else if size_t (size_t off + count) >? size then size_t (size - size_t off)
  else count.

(** ** The bus *)

Inductive event : Type :=
| EvMutexLock
| EvMutexUnlock
| EvResetSelect (r : Z)
| EvWriteBlock (buf : list Z)
| EvReadBlock (buf : list Z)
| EvRead8 (b : Z)
| EvMsleep (ms : Z)
| EvResetBus.

Record w1_b3_data : Type := B3Data {
  secret : list Z;
  registration_number : list Z
}.

(** [struct sha1] on the wire: [value & 0xff], then [value >> 8], four times,
    into [buf[base .. base + 4)]. *)
Definition put_le32 (base : nat) (word : Z) (buf : list Z) : list Z :=
  fst (for_loop 4 0
         (fun i (st : list Z * Z) =>
            let (b, value) := st in
            (<[(base + i)%nat := u8 (Z.land value 0xff)]> b,
             u32 (Z.shiftr value 8)))
         (buf, word)).

(** The four bytes of a 32-bit word, the least significant first. *)
Definition le32_bytes (word : Z) : list Z :=
  map (fun j => Z.land (Z.shiftr word (8 * j)) 0xff) [0; 1; 2; 3].

Definition copy_scratchpad_mac (mac : sha1) : list Z :=
  let buf := replicate 20 0 in
  let buf := put_le32 0 (sha1_e mac) buf in
  let buf := put_le32 4 (sha1_d mac) buf in
  let buf := put_le32 8 (sha1_c mac) buf in
  let buf := put_le32 12 (sha1_b mac) buf in
  let buf := put_le32 16 (sha1_a mac) buf in
  buf.

(** What is on the wire, and how it answers the bus master: the state of the
    chip and of the line, the result of a reset followed by the selection of
    the slave, the transfer of a byte each way, the passing of time and the
    reset pulse. *)
Record w1_bus : Type := W1Bus {
  Dev : Type;
  dev_reset_select : Dev -> Z * Dev;
  dev_write_8 : Z -> Dev -> Dev;
  dev_read_8 : Dev -> Z * Dev;
  dev_msleep : Z -> Dev -> Dev;
  dev_reset_bus : Dev -> Dev
}.

(** The eight bytes at [&buf[address]]; what lies beyond the end of [buf] is
    not the buffer's, and reads as the default of the type. *)
Definition block_at (buf : list Z) (address : Z) : list Z :=
  map (fun j => buf !!! (Z.to_nat address + j)%nat) (seq 0 8).

(** The bytes that the single-byte reads of a trace returned, in order. *)
Definition read_8_bytes (evs : list event) : list Z :=
  omap (fun e => match e with EvRead8 b => Some b | _ => None end) evs.

(** The blocks written in a trace, in order. *)
Definition written_blocks (evs : list event) : list (list Z) :=
  omap (fun e => match e with EvWriteBlock buf => Some buf | _ => None end) evs.

(** ** A scripted bus, and a bitwise [crc16]

    The chip of the examples answers from a script: the results of the
    successive reset-and-select operations (success once the script is
    spent) and the bytes it sends (the idle line, [0xFF], once the script is
    spent).  What is written to it and the passing of time leave it as it
    is. *)

Module Mock.

Record chip : Type := Chip {
  resets : list Z;
  rx : list Z
}.

Definition reset_select (c : chip) : Z * chip :=
  match resets c with
  | [] => (0, c)
  | r :: rs => (r, {| resets := rs; rx := rx c |})
  end.

Definition read_8 (c : chip) : Z * chip :=
  match rx c with
  | [] => (0xFF, c)
  | b :: bs => (b, {| resets := resets c; rx := bs |})
  end.

Definition bus : w1_bus :=
  {| Dev := chip;
     dev_reset_select := reset_select;
     dev_write_8 := fun _ c => c;
     dev_read_8 := read_8;
     dev_msleep := fun _ c => c;
     dev_reset_bus := fun c => c |}.

(** CRC-16 with the reflected polynomial [0xA001], a bit at a time. *)
Definition crc16_bit (crc : Z) : Z :=
  if Z.odd crc then Z.lxor (Z.shiftr crc 1) 0xA001 else Z.shiftr crc 1.

Definition crc16_byte (crc b : Z) : Z :=
  Nat.iter 8 crc16_bit (Z.lxor crc b).

Definition crc16 (crc : Z) (buf : list Z) : Z := fold_left crc16_byte buf crc.

(** The two bytes a chip sends after a frame: the complement of its
    checksum, low byte first. *)
Definition crc_reply (frame : list Z) : list Z :=
  let c := u16 (Z.lnot (crc16 0 frame)) in
  [Z.land c 0xff; Z.shiftr c 8].

(** What a chip sends in the course of one block write at [address]: the
    page, the checksum of the write-scratchpad frame, the scratchpad as it
    was staged (ending offset 7, no partial byte) with its checksum, and the
    byte that ends the copy. *)
Definition block_write_answers (page : list Z) (address : Z) (data : list Z)
    (status : Z) : list Z :=
  let ta1 := Z.land address 0xff in
  let ta2 := Z.shiftr address 8 in
  page
  ++ crc_reply ([0x0F; ta1; ta2] ++ data)
  ++ [ta1; ta2; 0x07] ++ data
  ++ crc_reply ([0xAA; ta1; ta2; 0x07] ++ data)
  ++ [status].

(** What it sends in the course of the installation of a secret. *)
Definition secret_answers (new_secret : list Z) (status : Z) : list Z :=
  crc_reply ([0x0F; 0x80; 0x00] ++ new_secret)
  ++ [0x80; 0x00; 0x07] ++ new_secret
  ++ crc_reply ([0xAA; 0x80; 0x00; 0x07] ++ new_secret)
  ++ [status].

Definition family : w1_b3_data :=
  {| secret := replicate 8 0;
     registration_number := [0xB3; 0x01; 0x23; 0x45; 0x67; 0x89; 0xAB; 0x5C] |}.

Definition erased_page : list Z := replicate 32 0xFF.

Definition block_1 : list Z := [0x01; 0x02; 0x03; 0x04; 0x05; 0x06; 0x07; 0x08].
Definition block_2 : list Z := [0x09; 0x0A; 0x0B; 0x0C; 0x0D; 0x0E; 0x0F; 0x10].

(** A chip that commits one block. *)
Definition chip_accepts : chip :=
  {| resets := []; rx := block_write_answers erased_page 0 block_1 0xAA |}.

(** A chip whose pages are write-protected. *)
Definition chip_protected : chip :=
  {| resets := []; rx := block_write_answers erased_page 0 block_1 0xFF |}.

(** A chip that commits a first block and rejects the MAC of the second. *)
Definition chip_rejects_second : chip :=
  {| resets := [];
     rx := block_write_answers erased_page 0 block_1 0xAA
           ++ block_write_answers (block_1 ++ replicate 24 0xFF) 8 block_2
                0x00 |}.

(** A chip that does not complete the load of a secret. *)
Definition chip_keeps_secret : chip :=
  {| resets := []; rx := secret_answers (replicate 8 0) 0x00 |}.

(** A chip that sends the 128 bytes [0 .. 127] of its data memory. *)
Definition chip_memory : chip :=
  {| resets := []; rx := map Z.of_nat (seq 0 128) |}.

End Mock.


(** ** Bit flips of the inputs of the MAC

    [flip_bit l i k] is [l] with bit [k] of byte [i] inverted, and
    [flips_change n mac l] computes whether each of these flips, over the
    first [n] bytes of [l], changes at least one of the five words of
    [mac l]. *)





Section Driver.

Variable bus : w1_bus.

(** The build option, and [crc16] of [linux/crc16.h]. *)
Variable CONFIG_W1_SLAVE_DS2432_CRC : bool.
Variable crc16 : Z -> list Z -> Z.

Record w1_slave : Type := Slave {
  wire : Dev bus;
  trace : list event;
  family_data : w1_b3_data
}.

Definition M (A : Type) : Type := w1_slave -> A * w1_slave.

Definition ret {A : Type} (a : A) : M A := fun sl => (a, sl).

Definition bind {A B : Type} (c : M A) (k : A -> M B) : M B :=
  fun sl => let (a, sl') := c sl in k a sl'.

Notation "'let*' x ':=' c1 'in' c2" := (bind c1 (fun x => c2))
  (at level 10, x pattern, c1 at level 100, c2 at level 200).

Definition emit (d : Dev bus) (e : event) (sl : w1_slave) : w1_slave :=
  {| wire := d; trace := trace sl ++ [e]; family_data := family_data sl |}.

(** *** The operations of the bus master ([linux/w1.h]) *)

Definition mutex_lock : M unit :=
  fun sl => (tt, emit (wire sl) EvMutexLock sl).

Definition mutex_unlock : M unit :=
  fun sl => (tt, emit (wire sl) EvMutexUnlock sl).

Definition w1_reset_select_slave : M Z :=
  fun sl =>
    let (r, d) := dev_reset_select bus (wire sl) in
    (r, emit d (EvResetSelect r) sl).

Definition w1_write_block (buf : list Z) : M unit :=
  fun sl =>
    (tt, emit (fold_left (fun d b => dev_write_8 bus b d) buf (wire sl))
           (EvWriteBlock buf) sl).

Fixpoint dev_read_block (len : nat) (d : Dev bus) : list Z * Dev bus :=
  match len with
  | O => ([], d)
  | S len' =>
      let (b, d1) := dev_read_8 bus d in
      let (bs, d2) := dev_read_block len' d1 in
      (u8 b :: bs, d2)
  end.

(** The kernel takes [len] as an [int]: a length of [2 ^ 31] or more is
    outside this model. *)
Definition w1_read_block (len : Z) : M (list Z) :=
  fun sl =>
    let (bs, d) := dev_read_block (Z.to_nat len) (wire sl) in
    (bs, emit d (EvReadBlock bs) sl).

Definition w1_read_8 : M Z :=
  fun sl =>
    let (b, d) := dev_read_8 bus (wire sl) in
    (u8 b, emit d (EvRead8 (u8 b)) sl).

Definition msleep (ms : Z) : M unit :=
  fun sl => (tt, emit (dev_msleep bus ms (wire sl)) (EvMsleep ms) sl).

Definition w1_reset_bus : M unit :=
  fun sl => (tt, emit (dev_reset_bus bus (wire sl)) EvResetBus sl).

Definition get_family_data : M w1_b3_data :=
  fun sl => (family_data sl, sl).

(** Two bytes read into the storage of a [u16], on a little-endian host. *)
Definition u16_of_bytes (bs : list Z) : Z :=
  Z.lor (bs !!! 0%nat) (Z.shiftl (bs !!! 1%nat) 8).

(** *** The commands of the chip *)

(** [memory] is the caller's buffer; the bytes read overwrite its start. *)
Definition w1_ds2432_read_memory (address : Z) (memory : list Z)
    (count : Z) : M (Z * list Z) :=
  let* rs := w1_reset_select_slave in
  if negb (rs =? 0) then ret (- EIO, memory)
  else
    let wrbuf := [DS2432_READ_MEMORY;
                  u8 (Z.land address 0xff);
                  u8 (Z.shiftr address 8)] in
    let* _ := w1_write_block wrbuf in
    let* rd := w1_read_block count in
    ret (0, rd ++ drop (length rd) memory).

(** The checksum test that both scratchpad commands end with, compiled in
    by [CONFIG_W1_SLAVE_DS2432_CRC]. *)
Definition scratchpad_crc_check (my_scratchpad_crc : Z)
    (ds2432_scratchpad_crc : Z) : Z :=
  if CONFIG_W1_SLAVE_DS2432_CRC then
    let ds2432_scratchpad_crc := u16 (Z.lnot ds2432_scratchpad_crc) in
    if negb (u16 my_scratchpad_crc =? ds2432_scratchpad_crc) then - EIO
    else 0
  else 0.

Definition w1_ds2432_write_scratchpad (address : Z) (data : list Z) : M Z :=
  let* rs := w1_reset_select_slave in
  if negb (rs =? 0) then ret (- EIO)
  else
    let wrbuf := [DS2432_WRITE_SCRATCHPAD;
                  u8 (Z.land address 0xff);
                  u8 (Z.shiftr address 8);
                  data !!! 0%nat; data !!! 1%nat; data !!! 2%nat;
                  data !!! 3%nat; data !!! 4%nat; data !!! 5%nat;
                  data !!! 6%nat; data !!! 7%nat] in
    let* _ := w1_write_block wrbuf in
    let* crc := w1_read_block 2 in
    ret (scratchpad_crc_check (crc16 0 wrbuf) (u16_of_bytes crc)).

(** The three results [address], [es] and [data] are written through
    pointers: [out] is what the caller had there. *)
Definition w1_ds2432_read_scratchpad (out : Z * Z * list Z) :
    M (Z * (Z * Z * list Z)) :=
  let* rs := w1_reset_select_slave in
  if negb (rs =? 0) then ret (- EIO, out)
  else
    let wrbuf := [DS2432_READ_SCRATCHPAD] in
    let* _ := w1_write_block wrbuf in
    let* rdbuf := w1_read_block 3 in
    let address :=
      u16 (Z.lor (u16 (Z.shiftl (rdbuf !!! 1%nat) 8)) (rdbuf !!! 0%nat)) in
    let es := rdbuf !!! 2%nat in
    let* data := w1_read_block 8 in
    let* crc := w1_read_block 2 in
    let my_scratchpad_crc :=
      crc16 (u16 (crc16 (u16 (crc16 0 wrbuf)) rdbuf)) data in
    ret (scratchpad_crc_check my_scratchpad_crc (u16_of_bytes crc),
         (address, es, data)).

Definition w1_ds2432_load_first_secret (address es : Z) : M Z :=
  let* rs := w1_reset_select_slave in
  if negb (rs =? 0) then ret (- EIO)
  else
    let load_first_secret := [DS2432_LOAD_FIRST_SECRET;
                              u8 (Z.land address 0xff);
                              u8 (Z.shiftr address 8);
                              es] in
    let* _ := w1_write_block load_first_secret in
    let* _ := msleep 10 in
    let* success := w1_read_8 in
    if negb (success =? 0xAA) && negb (success =? 0x55) then ret (- EIO)
    else ret 0.

Definition w1_ds2432_copy_scratchpad (address es : Z) (mac : sha1) : M Z :=
  let* rs := w1_reset_select_slave in
  if negb (rs =? 0) then ret (- EIO)
  else
    let copy_scratchpad := [DS2432_COPY_SCRATCHPAD;
                            u8 (Z.land address 0xff);
                            u8 (Z.land (Z.shiftr address 8) 0xff);
                            es] in
    let* _ := w1_write_block copy_scratchpad in
    let* _ := msleep 2 in
    let* _ := w1_write_block (copy_scratchpad_mac mac) in
    let* _ := msleep 10 in
    let* success := w1_read_8 in
    if success =? 0x00 then ret (- EACCES)
    else if success =? 0xff then ret (- EPERM)
    else if negb (success =? 0xAA) && negb (success =? 0x55)
         then ret (- EIO)
    else ret 0.

Definition w1_ds2432_write_secret (secret : list Z) : M Z :=
  let* rs := w1_reset_select_slave in
  if negb (rs =? 0) then ret (- EIO)
  else
    let* error := w1_ds2432_write_scratchpad W1_DS2432_SECRET_ADDR secret in
    if error <? 0 then ret error
    else
      let* (error, (address, es, data)) :=
        w1_ds2432_read_scratchpad (0, 0, replicate 8 0) in
      if error <? 0 then ret error
      else if negb (address =? W1_DS2432_SECRET_ADDR) then ret (- EIO)
      else if negb (Z.land (Z.shiftr es 5) 1 =? 0) then ret (- EIO)
      else
        let* error := w1_ds2432_load_first_secret address es in
        if error <? 0 then ret error
        else
          let* _ := w1_reset_bus in
          ret error.

(** *** The attribute files *)

Definition eeprom_read (buf : list Z) (off count : Z) : M (Z * list Z) :=
  let count := w1_b3_fix_count off count W1_DS2432_DATA_MEMORY_SIZE in
  if count =? 0 then ret (0, buf)
  else
    let* _ := mutex_lock in
    let* rs := w1_reset_select_slave in
    let* (count, buf) :=
      if negb (rs =? 0) then ret (size_t (- EIO), buf)
      else
        let* (_, buf) := w1_ds2432_read_memory (int off) buf count in
        ret (count, buf) in
    let* _ := mutex_unlock in
    ret (ssize_t count, buf).

Definition eeprom_write_block (address : Z) (data : list Z) : M Z :=
  let* b3_data := get_family_data in
  let* (error, data_memory_page) :=
    w1_ds2432_read_memory (Z.quot address 32 * 32) (replicate 32 0) 32 in
  if error <? 0 then ret error
  else
    let* error := w1_ds2432_write_scratchpad address data in
    if error <? 0 then ret error
    else
      let* (error, (sp_address, es, scratchpad)) :=
        w1_ds2432_read_scratchpad (0, 0, replicate 8 0) in
      if error <? 0 then ret error
      else if negb (sp_address =? address) then ret (- EIO)
      else if negb (Z.land (Z.shiftr es 5) 1 =? 0) then ret (- EIO)
      else if negb (bool_decide (take 8 scratchpad = take 8 data))
           then ret (- EIO)
      else
        let mac := generate_mac (secret b3_data) scratchpad address
                     data_memory_page (registration_number b3_data) in
        w1_ds2432_copy_scratchpad sp_address es mac.

(** The [while (address < count)] loop of [eeprom_write]; [address] is a
    [u8], and [None] is a loop that is still running when [fuel] is spent. *)
Fixpoint eeprom_write_loop (fuel : nat) (buf : list Z) (address count : Z) :
    M (option Z) :=
  match fuel with
  | O => ret None
  | S fuel' =>
      if address <? count then
        let* result := eeprom_write_block address (block_at buf address) in
        if result <? 0 then ret (Some (size_t result))
        else eeprom_write_loop fuel' buf (u8 (address + 8)) count
      else ret (Some count)
  end.

(** A loop that is still running has not reached [out_up]: the mutex is
    released by a call that returns, and by no other. *)
Definition eeprom_write (fuel : nat) (buf : list Z) (off count : Z) :
    M (option Z) :=
  let* _ := mutex_lock in
  let* rs := w1_reset_select_slave in
  let* count :=
    if negb (rs =? 0) then ret (Some (size_t (- EIO)))
    else eeprom_write_loop fuel buf 0 count in
  match count with
  | None => ret None
  | Some count =>
      let* _ := mutex_unlock in
      ret (Some (ssize_t count))
  end.

Definition secret_write (buf : list Z) (off count : Z) : M Z :=
  fun sl =>
    (ssize_t count,
     {| wire := wire sl; trace := trace sl;
        family_data :=
          {| secret := take 8 buf;
             registration_number :=
               registration_number (family_data sl) |} |}).

Definition secret_sync_write (buf : list Z) (off count : Z) : M Z :=
  let* b3_data := get_family_data in
  let* _ := mutex_lock in
  let* rs := w1_reset_select_slave in
  let* count :=
    if negb (rs =? 0) then ret (size_t (- EIO))
    else
      let* _ := w1_ds2432_write_secret (secret b3_data) in
      ret count in
  let* _ := mutex_unlock in
  ret (ssize_t count).


(** The multi-block write as a sequence of block writes that the first
    failure ends, for comparison with [eeprom_write_loop]. *)
Fixpoint write_blocks (buf : list Z) (addresses : list Z) : M Z :=
  match addresses with
  | [] => ret 0
  | address :: rest =>
      let* result := eeprom_write_block address (block_at buf address) in
      if result <? 0 then ret result else write_blocks buf rest
  end.

(** *** What a command puts on the bus

    A run of a command is its result and the bus events it adds to the
    trace.  [exec c sl a evs]: from [sl], [c] returns [a], adds [evs] and
    leaves the family data alone. *)

Definition exec {A : Type} (c : M A) (sl : w1_slave) (a : A)
    (evs : list event) : Prop :=
  fst (c sl) = a
  /\ trace (snd (c sl)) = trace sl ++ evs
  /\ family_data (snd (c sl)) = family_data sl.

Definition is_byte (b : Z) : Prop := 0 <= b < 256.

Inductive read_memory_run (address count : Z) :
    Z -> list Z -> list event -> Prop :=
| read_memory_unreachable rs :
    rs <> 0 ->
    read_memory_run address count (- EIO) [] [EvResetSelect rs]
| read_memory_done rd :
    length rd = Z.to_nat count ->
    Forall is_byte rd ->
    read_memory_run address count 0 rd
      [EvResetSelect 0;
       EvWriteBlock [0xF0; u8 (Z.land address 0xff);
                     u8 (Z.shiftr address 8)];
       EvReadBlock rd].

Definition write_scratchpad_frame (address : Z) (data : list Z) : list Z :=
  [0x0F; u8 (Z.land address 0xff); u8 (Z.shiftr address 8)]
  ++ map (fun j => data !!! j) (seq 0 8).

Inductive write_scratchpad_run (address : Z) (data : list Z) :
    Z -> list event -> Prop :=
| write_scratchpad_unreachable rs :
    rs <> 0 ->
    write_scratchpad_run address data (- EIO) [EvResetSelect rs]
| write_scratchpad_done crc :
    length crc = 2%nat ->
    write_scratchpad_run address data
      (scratchpad_crc_check
         (crc16 0 (write_scratchpad_frame address data))
         (u16_of_bytes crc))
      [EvResetSelect 0;
       EvWriteBlock (write_scratchpad_frame address data);
       EvReadBlock crc].

Inductive read_scratchpad_run (out : Z * Z * list Z) :
    Z -> Z * Z * list Z -> list event -> Prop :=
| read_scratchpad_unreachable rs :
    rs <> 0 ->
    read_scratchpad_run out (- EIO) out [EvResetSelect rs]
| read_scratchpad_done ta1 ta2 es data crc :
    is_byte ta1 -> is_byte ta2 -> is_byte es ->
    length data = 8%nat -> Forall is_byte data ->
    length crc = 2%nat ->
    read_scratchpad_run out
      (scratchpad_crc_check
         (crc16 (u16 (crc16 (u16 (crc16 0 [0xAA])) [ta1; ta2; es])) data)
         (u16_of_bytes crc))
      (ta2 * 256 + ta1, es, data)
      [EvResetSelect 0;
       EvWriteBlock [0xAA];
       EvReadBlock [ta1; ta2; es];
       EvReadBlock data;
       EvReadBlock crc].

Inductive load_first_secret_run (address es : Z) :
    Z -> list event -> Prop :=
| load_first_secret_unreachable rs :
    rs <> 0 ->
    load_first_secret_run address es (- EIO) [EvResetSelect rs]
| load_first_secret_done status :
    is_byte status ->
    load_first_secret_run address es
      (if bool_decide (status = 0xAA \/ status = 0x55) then 0 else - EIO)
      [EvResetSelect 0;
       EvWriteBlock [0x5A; u8 (Z.land address 0xff);
                     u8 (Z.shiftr address 8); es];
       EvMsleep 10;
       EvRead8 status].

(** The four outcomes of copy-scratchpad, by the byte the chip sends. *)
Definition disposition (status : Z) : Z :=
  if bool_decide (status = 0x00) then - EACCES
  else if bool_decide (status = 0xFF) then - EPERM
  else if bool_decide (status = 0xAA \/ status = 0x55) then 0
  else - EIO.

Inductive copy_scratchpad_run (address es : Z) (mac : sha1) :
    Z -> list event -> Prop :=
| copy_scratchpad_unreachable rs :
    rs <> 0 ->
    copy_scratchpad_run address es mac (- EIO) [EvResetSelect rs]
| copy_scratchpad_done status :
    is_byte status ->
    copy_scratchpad_run address es mac (disposition status)
      [EvResetSelect 0;
       EvWriteBlock [0x55; u8 (Z.land address 0xff);
                     u8 (Z.land (Z.shiftr address 8) 0xff); es];
       EvMsleep 2;
       EvWriteBlock (copy_scratchpad_mac mac);
       EvMsleep 10;
       EvRead8 status].

(** The three checks on the scratchpad read back. *)
Definition staged_as_sent (address : Z) (data : list Z)
    (readback : Z * Z * list Z) : Prop :=
  let '(sp_address, es, scratchpad) := readback in
  sp_address = address
  /\ Z.testbit es 5 = false
  /\ take 8 scratchpad = take 8 data.

(** The runs of a block write: the page read comes first; a failure of the
    link or of a checksum ends the run with its error; a scratchpad that
    does not read back as sent ends it with [-EIO] and nothing more on the
    bus; otherwise the copy follows, with the MAC over the first 28 bytes
    of the page. *)
Inductive write_block_run (fd : w1_b3_data) (address : Z)
    (data : list Z) : Z -> list event -> Prop :=
| write_block_page_failed r page evs0 :
    read_memory_run (Z.quot address 32 * 32) 32 r page evs0 ->
    r < 0 ->
    write_block_run fd address data r evs0
| write_block_stage_failed page evs0 r evs1 :
    read_memory_run (Z.quot address 32 * 32) 32 0 page evs0 ->
    write_scratchpad_run address data r evs1 ->
    r < 0 ->
    write_block_run fd address data r (evs0 ++ evs1)
| write_block_readback_failed page evs0 evs1 r readback evs2 :
    read_memory_run (Z.quot address 32 * 32) 32 0 page evs0 ->
    write_scratchpad_run address data 0 evs1 ->
    read_scratchpad_run (0, 0, replicate 8 0) r readback evs2 ->
    r < 0 ->
    write_block_run fd address data r (evs0 ++ evs1 ++ evs2)
| write_block_integrity page evs0 evs1 readback evs2 :
    read_memory_run (Z.quot address 32 * 32) 32 0 page evs0 ->
    write_scratchpad_run address data 0 evs1 ->
    read_scratchpad_run (0, 0, replicate 8 0) 0 readback evs2 ->
    ~ staged_as_sent address data readback ->
    write_block_run fd address data (- EIO) (evs0 ++ evs1 ++ evs2)
| write_block_copy page evs0 evs1 es scratchpad evs2 r evs3 :
    read_memory_run (Z.quot address 32 * 32) 32 0 page evs0 ->
    write_scratchpad_run address data 0 evs1 ->
    read_scratchpad_run (0, 0, replicate 8 0) 0 (address, es, scratchpad)
      evs2 ->
    staged_as_sent address data (address, es, scratchpad) ->
    copy_scratchpad_run address es
      (generate_mac (secret fd) scratchpad address (take 28 page)
         (registration_number fd)) r evs3 ->
    write_block_run fd address data r (evs0 ++ evs1 ++ evs2 ++ evs3).

(** The runs of the installation of a secret. *)
Inductive write_secret_run (new_secret : list Z) :
    Z -> list event -> Prop :=
| write_secret_unreachable rs :
    rs <> 0 ->
    write_secret_run new_secret (- EIO) [EvResetSelect rs]
| write_secret_stage_failed r evs1 :
    write_scratchpad_run 0x80 new_secret r evs1 ->
    r < 0 ->
    write_secret_run new_secret r (EvResetSelect 0 :: evs1)
| write_secret_readback_failed evs1 r readback evs2 :
    write_scratchpad_run 0x80 new_secret 0 evs1 ->
    read_scratchpad_run (0, 0, replicate 8 0) r readback evs2 ->
    r < 0 ->
    write_secret_run new_secret r (EvResetSelect 0 :: evs1 ++ evs2)
| write_secret_integrity evs1 address es data evs2 :
    write_scratchpad_run 0x80 new_secret 0 evs1 ->
    read_scratchpad_run (0, 0, replicate 8 0) 0 (address, es, data) evs2 ->
    address <> 0x80 \/ Z.testbit es 5 = true ->
    write_secret_run new_secret (- EIO) (EvResetSelect 0 :: evs1 ++ evs2)
| write_secret_load_failed evs1 es data evs2 r evs3 :
    write_scratchpad_run 0x80 new_secret 0 evs1 ->
    read_scratchpad_run (0, 0, replicate 8 0) 0 (0x80, es, data) evs2 ->
    Z.testbit es 5 = false ->
    load_first_secret_run 0x80 es r evs3 ->
    r < 0 ->
    write_secret_run new_secret r
      (EvResetSelect 0 :: evs1 ++ evs2 ++ evs3)
| write_secret_loaded evs1 es data evs2 evs3 :
    write_scratchpad_run 0x80 new_secret 0 evs1 ->
    read_scratchpad_run (0, 0, replicate 8 0) 0 (0x80, es, data) evs2 ->
    Z.testbit es 5 = false ->
    load_first_secret_run 0x80 es 0 evs3 ->
    write_secret_run new_secret 0
      (EvResetSelect 0 :: evs1 ++ evs2 ++ evs3 ++ [EvResetBus]).

(** [run c sl Q]: the result of [c] from [sl] and the events it adds
    satisfy [Q]. *)
Definition run {A : Type} (c : M A) (sl : w1_slave)
    (Q : A -> list event -> Prop) : Prop :=
  exists a evs, exec c sl a evs /\ Q a evs.

(** The multi-block write as the specification describes it, with the error of the
    failing block for result: the bus is taken, the slave selected, the
    blocks of eight bytes written one after the other from [off] until one
    fails, and the bus released. *)
Definition eeprom_write_by_blocks (buf : list Z) (off count : Z) : M Z :=
  let* _ := mutex_lock in
  let* rs := w1_reset_select_slave in
  let* result :=
    if negb (rs =? 0) then ret (- EIO)
    else
      let* result :=
        write_blocks buf
          (map (fun k => off + 8 * Z.of_nat k)
             (seq 0 (Z.to_nat ((count + 7) / 8)))) in
      ret (if result <? 0 then result else count) in
  let* _ := mutex_unlock in
  ret result.

(** *** The other attribute files *)

Definition W1_DS2432_REGISTER_PAGE_ADDR : Z := 0x88.
Definition W1_DS2432_REGISTER_PAGE_SIZE : Z := 0x10.

(** [memcpy(buf, b3_data->secret, 8)]. *)
Definition secret_read (buf : list Z) (off count : Z) : M (Z * list Z) :=
  let* b3_data := get_family_data in
  ret (8, take 8 (secret b3_data) ++ drop 8 buf).

Definition secret_sync_read (buf : list Z) (off count : Z) : M Z := ret 0.

Definition register_page_read (buf : list Z) (off count : Z) :
    M (Z * list Z) :=
  let* _ := mutex_lock in
  let* (error, buf) :=
    w1_ds2432_read_memory (int (W1_DS2432_REGISTER_PAGE_ADDR + off)) buf
      W1_DS2432_REGISTER_PAGE_SIZE in
  let* count :=
    if negb (error =? 0) then ret (size_t (- EIO))
    else
      let* _ := w1_reset_bus in
      ret count in
  let* _ := mutex_unlock in
  ret (ssize_t count, buf).

(** The body that [write_protect_secret_read], [user_byte_read],
    [factory_byte_read], [manufacturer_id_read] and
    [registration_number_read] have in common: they differ in the offset of
    their field in the register page. *)
Definition register_field_read (field : Z) (buf : list Z) (off count : Z) :
    M (Z * list Z) :=
  let* _ := mutex_lock in
  let* rs := w1_reset_select_slave in
  let* (count, buf) :=
    if negb (rs =? 0) then ret (size_t (- EIO), buf)
    else
      let* (_, buf) :=
        w1_ds2432_read_memory
          (int (W1_DS2432_REGISTER_PAGE_ADDR + field + off)) buf count in
      ret (count, buf) in
  let* _ := mutex_unlock in
  ret (ssize_t count, buf).




Definition manufacturer_id_read : list Z -> Z -> Z -> M (Z * list Z) :=
  register_field_read 6.


(** The characters ['0'] and ['1']. *)
Definition char_0 : Z := 48.
Definition char_1 : Z := 49.

(** [write_protected] is a local array of one byte, not initialised. *)
Definition write_protect_pages_03_read (buf : list Z) (off count : Z) :
    M (Z * list Z) :=
  let* _ := mutex_lock in
  let* (error, write_protected) :=
    w1_ds2432_read_memory (int (W1_DS2432_REGISTER_PAGE_ADDR + 1 + off))
      [0] 1 in
  let* (count, buf) :=
    if negb (error =? 0) then ret (size_t (- EIO), buf)
    else
      let count := 1 in
      let buf := <[0%nat := char_0]> buf in
      let buf :=
        if (write_protected !!! 0%nat =? 0x55)
           || (write_protected !!! 0%nat =? 0xAA)
        then <[0%nat := char_1]> buf
        else buf in
      let* _ := w1_reset_bus in
      ret (count, buf) in
  let* _ := mutex_unlock in
  ret (ssize_t count, buf).

(** The events that are not the taking or the release of the bus mutex. *)
Definition bus_event (e : event) : Prop :=
  e <> EvMutexLock /\ e <> EvMutexUnlock.

(** The five words of a [struct sha1] are 32-bit values. *)
Definition sha1_words (s : sha1) : list Z :=
  [sha1_a s; sha1_b s; sha1_c s; sha1_d s; sha1_e s].

(** What an attribute file adds to the trace: nothing, or the taking of the
    mutex, bus events and the release of the mutex. *)
Definition locked_section (evs : list event) : Prop :=
  evs = []
  \/ exists evs', evs = EvMutexLock :: evs' ++ [EvMutexUnlock]
                  /\ Forall bus_event evs'.


(** What a call that has not returned has added to the trace: the taking of
    the mutex, then bus events. *)
Definition mutex_held (evs : list event) : Prop :=
  exists evs', evs = EvMutexLock :: evs' /\ Forall bus_event evs'.
(** * Properties *)

(** ** Loops *)

Lemma for_loop_snoc {St : Type} (n i : nat) (body : nat -> St -> St) (s : St) :
  for_loop (S n) i body s = body (i + n)%nat (for_loop n i body s).
Proof.
  revert i s. induction n as [|n IH]; intros i s.
  - simpl. by rewrite Nat.add_0_r.
  - change (for_loop (S (S n)) i body s)
      with (for_loop (S n) (S i) body (body i s)).
    rewrite IH. simpl. f_equal. lia.
Qed.

Lemma for_loop_fold {St : Type} (n i : nat) (body : nat -> St -> St) (s : St) :
  for_loop n i body s = fold_left (fun s j => body j s) (seq i n) s.
Proof.
  revert i s. induction n as [|n IH]; intros i s; simpl; [done|]. apply IH.
Qed.

Lemma for_loop_ext {St : Type} (n i : nat) (body body' : nat -> St -> St)
    (s : St) :
  (forall j s, (i <= j < i + n)%nat -> body j s = body' j s) ->
  for_loop n i body s = for_loop n i body' s.
Proof.
  revert i s. induction n as [|n IH]; intros i s Heq; simpl; [done|].
  rewrite Heq by lia. apply IH. intros j s' Hj. apply Heq. lia.
Qed.

(** ** The round functions *)

Lemma f1_Ch (x y z : Z) : f1 x y z = FIPS180.Ch x y z.
Proof.
  unfold f1, FIPS180.Ch. apply Z.bits_inj'. intros n Hn.
  rewrite Z.lxor_spec, Z.lor_spec, !Z.land_spec, Z.lxor_spec,
    Z.lnot_spec by done.
  by destruct (Z.testbit x n), (Z.testbit y n), (Z.testbit z n).
Qed.

Lemma f2_Parity (x y z : Z) : f2 x y z = FIPS180.Parity x y z.
Proof. unfold f2, FIPS180.Parity. apply Z.lxor_assoc. Qed.

Lemma f3_Maj (x y z : Z) : f3 x y z = u32 (FIPS180.Maj x y z).
Proof.
  unfold f3, FIPS180.Maj. f_equal.
  rewrite Z.add_nocarry_lor.
  - apply Z.bits_inj'. intros n Hn.
    rewrite !Z.lor_spec, !Z.land_spec, Z.lxor_spec.
    by destruct (Z.testbit x n), (Z.testbit y n), (Z.testbit z n).
  - apply Z.bits_inj'. intros n Hn.
    rewrite !Z.land_spec, Z.lxor_spec, Z.bits_0.
    by destruct (Z.testbit x n), (Z.testbit y n), (Z.testbit z n).
Qed.

(** ** The sixteen words *)

Lemma lor_shiftl_add (hi lo k : Z) :
  0 <= k -> 0 <= lo < 2 ^ k -> Z.lor (Z.shiftl hi k) lo = hi * 2 ^ k + lo.
Proof.
  intros Hk Hlo. rewrite <- Z.shiftl_mul_pow2 by done.
  symmetry. apply Z.add_nocarry_lor. apply Z.bits_inj'. intros n Hn.
  rewrite Z.land_spec, Z.bits_0.
  destruct (decide (n < k)) as [Hlt|Hge].
  - rewrite Z.shiftl_spec, Z.testbit_neg_r by lia. done.
  - destruct (decide (lo = 0)) as [->|Hne];
      [by rewrite Z.bits_0, andb_false_r|].
    rewrite (Z.bits_above_log2 lo n), andb_false_r; [done|lia|].
    assert (Z.log2 lo < k) by (apply Z.log2_lt_pow2; lia). lia.
Qed.

Lemma be32_big_endian (b0 b1 b2 b3 : Z) :
  0 <= b0 < 256 -> 0 <= b1 < 256 -> 0 <= b2 < 256 -> 0 <= b3 < 256 ->
  Z.lor (Z.shiftl b0 24) (Z.lor (Z.shiftl b1 16) (Z.lor (Z.shiftl b2 8) b3))
  = b0 * 2 ^ 24 + b1 * 2 ^ 16 + b2 * 2 ^ 8 + b3.
Proof.
  intros H0 H1 H2 H3.
  rewrite (lor_shiftl_add b2 b3 8) by lia.
  rewrite (lor_shiftl_add b1 _ 16) by lia.
  rewrite (lor_shiftl_add b0 _ 24) by lia.
  lia.
Qed.

Lemma be32_to_cpu_at_skip (b0 b1 b2 b3 : Z) (rest : list Z) (i : nat) :
  be32_to_cpu_at (b0 :: b1 :: b2 :: b3 :: rest) (S i) = be32_to_cpu_at rest i.
Proof.
  unfold be32_to_cpu_at.
  replace (4 * S i)%nat with (S (S (S (S (4 * i))))) by lia.
  reflexivity.
Qed.

Lemma words_be32 (n : nat) (bytes : list Z) :
  length bytes = (4 * n)%nat ->
  Forall (fun b => 0 <= b < 256) bytes ->
  FIPS180.words bytes n = map (be32_to_cpu_at bytes) (seq 0 n).
Proof.
  revert bytes. induction n as [|n IH]; intros bytes Hlen Hall;
    [by destruct bytes|].
  destruct bytes as [|b0 [|b1 [|b2 [|b3 rest]]]]; try (simpl in Hlen; lia).
  apply Forall_cons in Hall as [H0 Hall].
  apply Forall_cons in Hall as [H1 Hall].
  apply Forall_cons in Hall as [H2 Hall].
  apply Forall_cons in Hall as [H3 Hall].
  change (FIPS180.words (b0 :: b1 :: b2 :: b3 :: rest) (S n))
    with ((b0 * 2 ^ 24 + b1 * 2 ^ 16 + b2 * 2 ^ 8 + b3)
            :: FIPS180.words rest n).
  rewrite IH by (simpl in Hlen; done || lia).
  change (seq 0 (S n)) with (0%nat :: seq 1 n).
  rewrite <- seq_shift, map_cons, map_map. f_equal.
  - symmetry. by apply be32_big_endian.
  - apply map_ext. intros i. symmetry. apply be32_to_cpu_at_skip.
Qed.

Lemma load_block_words (in_ : list Z) :
  length in_ = 64%nat ->
  Forall (fun b => 0 <= b < 256) in_ ->
  load_block in_ (replicate 80 0) = FIPS180.words in_ 16 ++ replicate 64 0.
Proof.
  intros Hlen Hall. rewrite words_be32 by done. reflexivity.
Qed.

Lemma words_length (n : nat) (bytes : list Z) :
  length bytes = (4 * n)%nat -> length (FIPS180.words bytes n) = n.
Proof.
  revert bytes. induction n as [|n IH]; intros bytes Hlen;
    [by destruct bytes|].
  destruct bytes as [|b0 [|b1 [|b2 [|b3 rest]]]]; try (simpl in Hlen; lia).
  simpl. f_equal. apply IH. simpl in Hlen. lia.
Qed.

(** ** The message schedule *)

Lemma schedule_length (n : nat) (M : list Z) :
  length (FIPS180.schedule n M) = (length M + n)%nat.
Proof.
  induction n as [|n IH]; simpl; [lia|]. rewrite length_app, IH. simpl. lia.
Qed.

Lemma expand_block_schedule_upto (n : nat) (M : list Z) :
  length M = 16%nat -> (n <= 64)%nat ->
  for_loop n 0
    (fun i ws =>
       <[(i + 16)%nat :=
           rol32 (Z.lxor (Z.lxor (Z.lxor (ws !!! (i + 13)%nat)
                                         (ws !!! (i + 8)%nat))
                                 (ws !!! (i + 2)%nat))
                         (ws !!! i)) 1]> ws)
    (M ++ replicate 64 0)
  = FIPS180.schedule n M ++ replicate (64 - n) 0.
Proof.
  intros HM. induction n as [|n IH]; intros Hn; [done|].
  rewrite for_loop_snoc, IH by lia. clear IH.
  pose proof (schedule_length n M) as HW. rewrite HM in HW.
  set (W := FIPS180.schedule n M) in *.
  change (FIPS180.schedule (S n) M)
    with (W ++ [rol32 (Z.lxor (W !!! (length W - 3)%nat)
                         (Z.lxor (W !!! (length W - 8)%nat)
                            (Z.lxor (W !!! (length W - 14)%nat)
                               (W !!! (length W - 16)%nat)))) 1]).
  rewrite !lookup_total_app_l by lia.
  replace (0 + n + 16)%nat with (length W + 0)%nat by lia.
  rewrite insert_app_r.
  replace (64 - n)%nat with (S (64 - S n)) by lia.
  rewrite <- app_assoc. simpl. do 3 f_equal.
  rewrite HW.
  replace (16 + n - 3)%nat with (0 + n + 13)%nat by lia.
  replace (16 + n - 8)%nat with (0 + n + 8)%nat by lia.
  replace (16 + n - 14)%nat with (0 + n + 2)%nat by lia.
  replace (16 + n - 16)%nat with (0 + n)%nat by lia.
  by rewrite !Z.lxor_assoc.
Qed.

Lemma expand_block_schedule (M : list Z) :
  length M = 16%nat ->
  expand_block (M ++ replicate 64 0) = FIPS180.schedule 64 M.
Proof.
  intros HM. unfold expand_block.
  rewrite expand_block_schedule_upto by (done || lia).
  apply app_nil_r.
Qed.

(** ** The eighty rounds *)

Lemma for_loop_add {St : Type} (n m i : nat) (body : nat -> St -> St) (s : St) :
  for_loop (n + m) i body s = for_loop m (i + n) body (for_loop n i body s).
Proof.
  revert i s. induction n as [|n IH]; intros i s; simpl.
  - by rewrite Nat.add_0_r.
  - rewrite IH. f_equal. lia.
Qed.

Lemma rounds_fold (W : list Z) (n lo : nat) (s : sha1) :
  (lo + n <= length W)%nat ->
  fold_left FIPS180.round (zip (seq lo n) (drop lo W)) s
  = for_loop n lo (fun t s => FIPS180.round s (t, W !!! t)) s.
Proof.
  revert lo s. induction n as [|n IH]; intros lo s Hlen; [done|].
  assert (Hlo : W !! lo = Some (W !!! lo))
    by (apply list_lookup_lookup_total_lt; lia).
  rewrite (drop_S _ _ _ Hlo). simpl. apply IH. lia.
Qed.

Ltac ltb_cases :=
  repeat match goal with
         | |- context [(?a <? ?b)%nat] => destruct (Nat.ltb_spec a b); try lia
         end.

Lemma round_1 (W : list Z) (t : nat) (s : sha1) :
  (t < 20)%nat -> FIPS180.round s (t, W !!! t) = sha_round f1 K1 W t s.
Proof.
  intros Ht. unfold FIPS180.round, sha_round, FIPS180.f, FIPS180.K, K1.
  ltb_cases. rewrite f1_Ch. do 2 f_equal. lia.
Qed.

Lemma round_2 (W : list Z) (t : nat) (s : sha1) :
  (20 <= t < 40)%nat -> FIPS180.round s (t, W !!! t) = sha_round f2 K2 W t s.
Proof.
  intros Ht. unfold FIPS180.round, sha_round, FIPS180.f, FIPS180.K, K2.
  ltb_cases. rewrite f2_Parity. do 2 f_equal. lia.
Qed.

Lemma round_3 (W : list Z) (t : nat) (s : sha1) :
  (40 <= t < 60)%nat -> FIPS180.round s (t, W !!! t) = sha_round f3 K3 W t s.
Proof.
  intros Ht. unfold FIPS180.round, sha_round, FIPS180.f, FIPS180.K, K3.
  ltb_cases. rewrite f3_Maj. f_equal. unfold u32.
  set (m := FIPS180.Maj _ _ _).
  set (rest := 0x8f1bbcdc + rol32 (sha1_a s) 5 + sha1_e s + W !!! t).
  replace (rol32 (sha1_a s) 5 + m + sha1_e s + 0x8f1bbcdc + W !!! t)
    with (m + rest) by (unfold rest; lia).
  replace (m `mod` 2 ^ 32 + 0x8f1bbcdc + rol32 (sha1_a s) 5 + sha1_e s
           + W !!! t)
    with (m `mod` 2 ^ 32 + rest) by (unfold rest; lia).
  by rewrite Zplus_mod_idemp_l.
Qed.

Lemma round_4 (W : list Z) (t : nat) (s : sha1) :
  (60 <= t)%nat -> FIPS180.round s (t, W !!! t) = sha_round f2 K4 W t s.
Proof.
  intros Ht. unfold FIPS180.round, sha_round, FIPS180.f, FIPS180.K, K4.
  ltb_cases. rewrite f2_Parity. do 2 f_equal. lia.
Qed.

Lemma eighty_rounds (W : list Z) :
  length W = 80%nat ->
  fold_left FIPS180.round (zip (seq 0 80) W) FIPS180.H0
  = for_loop 20 60 (sha_round f2 K4 W)
      (for_loop 20 40 (sha_round f3 K3 W)
         (for_loop 20 20 (sha_round f2 K2 W)
            (for_loop 20 0 (sha_round f1 K1 W) sha_init))).
Proof.
  intros HW.
  rewrite <- (drop_0 W) at 1. rewrite rounds_fold by lia.
  change 80%nat with (20 + (20 + (20 + 20)))%nat.
  rewrite !for_loop_add. simpl Nat.add.
  rewrite (for_loop_ext 20 0 _ (sha_round f1 K1 W))
    by (intros; apply round_1; lia).
  rewrite (for_loop_ext 20 20 _ (sha_round f2 K2 W))
    by (intros; apply round_2; lia).
  rewrite (for_loop_ext 20 40 _ (sha_round f3 K3 W))
    by (intros; apply round_3; lia).
  rewrite (for_loop_ext 20 60 _ (sha_round f2 K4 W))
    by (intros; apply round_4; lia).
  reflexivity.
Qed.

(** C1. The transform is one pass of the SHA-1 compression function over the
    64-byte block, without the final addition: with the words of the block
    read big-endian, the schedule [W_t = rol32 (W_(t-3) xor W_(t-8) xor
    W_(t-14) xor W_(t-16)) 1], the round functions [Ch], [Parity], [Maj],
    [Parity], the four round constants and the initial state of FIPS 180, the
    result is the five working variables as they stand after round 80; the
    SHA-1 compression of the block is that result added, word by word, to the
    initial state. *)
Theorem maxim_sha_transform_sha1_rounds (in_ : list Z) :
  length in_ = 64%nat ->
  Forall (fun b => 0 <= b < 256) in_ ->
  maxim_sha_transform in_ = FIPS180.working_variables in_
  /\ FIPS180.compress in_
     = (let s := maxim_sha_transform in_ in
        Sha1 (u32 (0x67452301 + sha1_a s)) (u32 (0xEFCDAB89 + sha1_b s))
             (u32 (0x98BADCFE + sha1_c s)) (u32 (0x10325476 + sha1_d s))
             (u32 (0xC3D2E1F0 + sha1_e s))).
Proof.
  intros Hlen Hall.
  assert (Heq : maxim_sha_transform in_ = FIPS180.working_variables in_).
  { unfold maxim_sha_transform, FIPS180.working_variables.
    rewrite load_block_words by done.
    rewrite expand_block_schedule by (by apply words_length).
    symmetry. apply eighty_rounds.
    rewrite schedule_length, words_length by done. done. }
  split; [done|]. unfold FIPS180.compress. by rewrite Heq.
Qed.

(** ** The authentication message *)

Lemma land_f0_bounds (a : Z) : 0 <= Z.land a 0xf0 < 256.
Proof.
  split; [apply Z.land_nonneg; lia|].
  replace (Z.land a 0xf0) with (Z.land (Z.land a 0xf0) (Z.ones 8)).
  - rewrite Z.land_ones by lia. apply Z.mod_pos_bound. lia.
  - by rewrite <- Z.land_assoc.
Qed.

Lemma page_number_byte (a : Z) :
  u8 (Z.shiftr (Z.land a 0xf0) 5) = Z.shiftr (Z.land a 0xf0) 5.
Proof.
  pose proof (land_f0_bounds a) as Hb. unfold u8.
  rewrite Z.shiftr_div_pow2 by lia. apply Z.mod_small.
  change (2 ^ 5) with 32. change (2 ^ 8) with 256.
  split; [apply Z.div_pos; lia|].
  apply Z.div_lt_upper_bound; lia.
Qed.


Tactic Notation "explode_list" ident(l) integer(n) :=
  do n (destruct l as [|? l]; [simpl in *; lia|]).

Lemma mac_message_eq (secret scratchpad page serial : list Z) (address : Z) :
  length secret = 8%nat -> length scratchpad = 8%nat ->
  (28 <= length page)%nat -> (7 <= length serial)%nat ->
  mac_message secret scratchpad address page serial
  = take 4 secret ++ take 28 page ++ scratchpad
    ++ [Z.shiftr (Z.land address 0xF0) 5]
    ++ take 7 serial ++ drop 4 secret ++ mac_padding.
Proof.
  intros Hs Hsp Hp Hser.
  explode_list secret 8. destruct secret; [|simpl in *; lia].
  explode_list scratchpad 8. destruct scratchpad; [|simpl in *; lia].
  explode_list page 28. explode_list serial 7.
  unfold mac_message. rewrite page_number_byte.
  cbn [for_loop replicate]. reflexivity.
Qed.

(** C2 (as amended). The authentication message is 64 bytes: bytes 0-3 are
    [secret[0..4)], bytes 4-31 the first 28 bytes of the page data, bytes
    32-39 the eight bytes of the scratchpad, byte 40 is
    [(address & 0xF0) >> 5], bytes 41-47 the first seven bytes of the serial
    number, bytes 48-51 [secret[4..8)] and bytes 52-63 the twelve constant
    bytes [FF FF FF 80 00 00 00 00 00 00 01 B8]; the MAC is the transform of
    that message. *)
Theorem generate_mac_message_layout
    (secret scratchpad page serial : list Z) (address : Z) :
  length secret = 8%nat -> length scratchpad = 8%nat ->
  (28 <= length page)%nat -> length serial = 8%nat ->
  let message := mac_message secret scratchpad address page serial in
  length message = 64%nat
  /\ take 4 message = take 4 secret
  /\ take 28 (drop 4 message) = take 28 page
  /\ take 8 (drop 32 message) = scratchpad
  /\ message !! 40%nat = Some (Z.shiftr (Z.land address 0xF0) 5)
  /\ take 7 (drop 41 message) = take 7 serial
  /\ take 4 (drop 48 message) = drop 4 secret
  /\ drop 52 message
     = [0xFF; 0xFF; 0xFF; 0x80; 0x00; 0x00; 0x00; 0x00; 0x00; 0x00; 0x01; 0xB8]
  /\ generate_mac secret scratchpad address page serial
     = maxim_sha_transform message.
Proof.
  intros Hs Hsp Hp Hser message.
  assert (Hmac : generate_mac secret scratchpad address page serial
                 = maxim_sha_transform message) by reflexivity.
  assert (Hlayout : message
                    = take 4 secret ++ take 28 page ++ scratchpad
                      ++ [Z.shiftr (Z.land address 0xF0) 5]
                      ++ take 7 serial ++ drop 4 secret ++ mac_padding)
    by (unfold message; apply mac_message_eq; lia).
  clearbody message.
  refine (conj _ (conj _ (conj _ (conj _ (conj _ (conj _ (conj _
            (conj _ Hmac))))))));
    clear Hmac; subst message;
    explode_list secret 8; (destruct secret; [|simpl in *; lia]);
    explode_list scratchpad 8; (destruct scratchpad; [|simpl in *; lia]);
    explode_list page 28; explode_list serial 7;
    cbn [take drop app mac_padding]; reflexivity.
Qed.











(** ** The bounds of a read *)

Lemma w1_b3_fix_count_bounded (off count : Z) :
  0 <= off < 2 ^ 63 -> 0 <= count < 2 ^ 63 ->
  w1_b3_fix_count off count 0x80
  = (if off >? 0x80 then 0 else Z.min count (0x80 - off)).
Proof.
  intros Hoff Hcount. unfold w1_b3_fix_count, size_t.
  rewrite (Z.mod_small off) by lia.
  rewrite (Z.mod_small (off + count)) by lia.
  destruct (Z.gtb_spec off 0x80); [done|].
  rewrite (Z.mod_small (0x80 - off)) by lia.
  destruct (Z.gtb_spec (off + count) 0x80); lia.
Qed.

(** ** More on the transform: the words stay 32 bits wide *)

Lemma for_loop_invariant {St : Type} (P : St -> Prop) (n i : nat)
    (body : nat -> St -> St) (s : St) :
  (forall j s, P s -> P (body j s)) -> P s -> P (for_loop n i body s).
Proof.
  intros Hbody. revert i s. induction n as [|n IH]; intros i s Hs; simpl; auto.
Qed.

Lemma lor_u32 (x y : Z) :
  0 <= x < 2 ^ 32 -> 0 <= y < 2 ^ 32 -> 0 <= Z.lor x y < 2 ^ 32.
Proof.
  intros Hx Hy.
  assert (Heq : Z.lor x y = Z.lor x y mod 2 ^ 32).
  { rewrite <- Z.land_ones by lia. rewrite Z.land_lor_distr_l.
    rewrite !Z.land_ones by lia. by rewrite !Z.mod_small by lia. }
  rewrite Heq. apply Z.mod_pos_bound. lia.
Qed.

Lemma rol32_u32 (word shift : Z) :
  0 <= word < 2 ^ 32 -> 0 <= rol32 word shift < 2 ^ 32.
Proof.
  intros Hw. unfold rol32. apply lor_u32.
  - unfold u32. apply Z.mod_pos_bound. lia.
  - assert (Hs : 0 <= Z.land (- shift) 31) by (apply Z.land_nonneg; lia).
    rewrite Z.shiftr_div_pow2 by done.
    assert (0 < 2 ^ Z.land (- shift) 31) by (apply Z.pow_pos_nonneg; lia).
    split; [apply Z.div_pos; lia|].
    apply Z.div_lt_upper_bound; [done|]. nia.
Qed.

Lemma sha_round_u32 (f : Z -> Z -> Z -> Z) (K : Z) (workspace : list Z)
    (i : nat) (s : sha1) :
  Forall (fun w => 0 <= w < 2 ^ 32) (sha1_words s) ->
  Forall (fun w => 0 <= w < 2 ^ 32) (sha1_words (sha_round f K workspace i s)).
Proof.
  unfold sha1_words. intros Hs.
  apply Forall_cons in Hs as [Ha Hs]. apply Forall_cons in Hs as [Hb Hs].
  apply Forall_cons in Hs as [Hc Hs]. apply Forall_cons in Hs as [Hd _].
  unfold sha_round. cbn [sha1_a sha1_b sha1_c sha1_d sha1_e].
  repeat apply Forall_cons_2; try done.
  - unfold u32. apply Z.mod_pos_bound. lia.
  - by apply rol32_u32.
Qed.

(** X1. Whatever the bytes of the block (and whatever its length), each of
    the five words that the transform returns is a 32-bit value. *)
Theorem maxim_sha_transform_words_32_bits (in_ : list Z) :
  Forall (fun w => 0 <= w < 2 ^ 32) (sha1_words (maxim_sha_transform in_)).
Proof.
  unfold maxim_sha_transform. cbv zeta.
  repeat (apply for_loop_invariant; [intros; by apply sha_round_u32|]).
  unfold sha1_words, sha_init. simpl. repeat constructor; lia.
Qed.

(** ** More on the MAC on the wire: nothing is lost *)

Lemma le32_bytes_value (w : Z) :
  0 <= w < 2 ^ 32 ->
  w = le32_bytes w !!! 0%nat + 2 ^ 8 * le32_bytes w !!! 1%nat
      + 2 ^ 16 * le32_bytes w !!! 2%nat + 2 ^ 24 * le32_bytes w !!! 3%nat.
Proof using Type.
  intros Hw. unfold le32_bytes. cbn [map].
  change ([?a; ?b; ?c; ?d] !!! 0%nat) with a.
  change (8 * 0) with 0. change (8 * 1) with 8.
  change (8 * 2) with 16. change (8 * 3) with 24.
  change 0xff with (Z.ones 8). rewrite !Z.land_ones by lia.
  rewrite Z.shiftr_0_r, !Z.shiftr_div_pow2 by lia.
  change ([?a; ?b; ?c; ?d] !!! 0%nat) with a.
  change ([?a; ?b; ?c; ?d] !!! 1%nat) with b.
  change ([?a; ?b; ?c; ?d] !!! 2%nat) with c.
  change ([?a; ?b; ?c; ?d] !!! 3%nat) with d.
  change (2 ^ 8) with 256. change (2 ^ 16) with 65536.
  change (2 ^ 24) with 16777216. change (2 ^ 32) with 4294967296 in Hw.
  clear - Hw. Z.div_mod_to_equations. lia.
Qed.

Lemma le32_bytes_inj (w w' : Z) :
  0 <= w < 2 ^ 32 -> 0 <= w' < 2 ^ 32 ->
  le32_bytes w = le32_bytes w' -> w = w'.
Proof using Type.
  intros Hw Hw' Heq.
  rewrite (le32_bytes_value w Hw), (le32_bytes_value w' Hw'). by rewrite Heq.
Qed.

(** ** More on the bounds of a read *)

(** X3. For every offset, count and size of the C types, [w1_b3_fix_count]
    returns a count that is not negative and not more than the count it was
    given, also when [off + count] wraps around 64 bits. *)
Theorem w1_b3_fix_count_at_most_count (off count size : Z) :
  0 <= count < 2 ^ 64 -> 0 <= size < 2 ^ 64 ->
  0 <= w1_b3_fix_count off count size <= count.
Proof using Type.
  intros Hcount Hsize. unfold w1_b3_fix_count, size_t.
  assert (Ho : 0 <= off mod 2 ^ 64 < 2 ^ 64) by (apply Z.mod_pos_bound; lia).
  set (o := off mod 2 ^ 64) in *.
  destruct (Z.gtb_spec o size) as [Hgt|Hle]; [lia|].
  destruct (Z.gtb_spec ((o + count) mod 2 ^ 64) size) as [Hgt|Hle']; [|lia].
  rewrite (Z.mod_small (size - o)) by lia.
  change (2 ^ 64) with 18446744073709551616 in *.
  clear - Hcount Hsize Ho Hle Hgt. Z.div_mod_to_equations. lia.
Qed.

(** ** Runs of the bus commands *)

Lemma run_ret {A : Type} (a : A) (sl : w1_slave)
    (Q : A -> list event -> Prop) :
  Q a [] -> run (ret a) sl Q.
Proof.
  intros HQ. exists a, []. split; [|done].
  unfold exec, ret. simpl. by rewrite app_nil_r.
Qed.

Lemma run_bind {A B : Type} (c : M A) (k : A -> M B) (sl : w1_slave)
    (Q : B -> list event -> Prop) :
  run c sl (fun a evs =>
              forall sl1, family_data sl1 = family_data sl ->
                          run (k a) sl1 (fun b evs' => Q b (evs ++ evs'))) ->
  run (bind c k) sl Q.
Proof.
  intros (a & evs & (Ha & Ht & Hf) & Hk).
  destruct (Hk (snd (c sl)) Hf) as (b & evs' & (Hb & Ht' & Hf') & HQ).
  exists b, (evs ++ evs'). split; [|done].
  unfold exec, bind. destruct (c sl) as [a0 sl1]. simpl in *. subst a0.
  repeat split; [done| |congruence].
  by rewrite Ht', Ht, app_assoc.
Qed.

Lemma run_mono {A : Type} (c : M A) (sl : w1_slave)
    (Q Q' : A -> list event -> Prop) :
  run c sl Q -> (forall a evs, Q a evs -> Q' a evs) -> run c sl Q'.
Proof. intros (a & evs & Hc & HQ) Himp. exists a, evs. auto. Qed.

Lemma run_reset_select (sl : w1_slave) (Q : Z -> list event -> Prop) :
  (forall rs, Q rs [EvResetSelect rs]) -> run w1_reset_select_slave sl Q.
Proof.
  intros HQ. unfold run, exec, w1_reset_select_slave.
  destruct (dev_reset_select bus (wire sl)) as [rs d].
  exists rs, [EvResetSelect rs]. simpl. auto.
Qed.

Lemma run_write_block (buf : list Z) (sl : w1_slave)
    (Q : unit -> list event -> Prop) :
  Q tt [EvWriteBlock buf] -> run (w1_write_block buf) sl Q.
Proof. intros HQ. eexists tt, _. split; [|apply HQ]. done. Qed.

Lemma dev_read_block_bytes (len : nat) (d : Dev bus) :
  length (fst (dev_read_block len d)) = len
  /\ Forall is_byte (fst (dev_read_block len d)).
Proof.
  revert d. induction len as [|len IH]; intros d; simpl; [by split|].
  destruct (dev_read_8 bus d) as [b d1].
  specialize (IH d1). destruct (dev_read_block len d1) as [bs d2].
  simpl in *. destruct IH as [Hlen Hall]. split; [by rewrite Hlen|].
  constructor; [|done]. unfold is_byte, u8. apply Z.mod_pos_bound. lia.
Qed.

Lemma run_read_block (len : Z) (sl : w1_slave)
    (Q : list Z -> list event -> Prop) :
  (forall bs, length bs = Z.to_nat len -> Forall is_byte bs ->
              Q bs [EvReadBlock bs]) ->
  run (w1_read_block len) sl Q.
Proof.
  intros HQ.
  pose proof (dev_read_block_bytes (Z.to_nat len) (wire sl)) as [Hlen Hall].
  unfold run, exec, w1_read_block.
  destruct (dev_read_block (Z.to_nat len) (wire sl)) as [bs d].
  exists bs, [EvReadBlock bs]. simpl in *. auto.
Qed.

Lemma run_read_8 (sl : w1_slave) (Q : Z -> list event -> Prop) :
  (forall b, is_byte b -> Q b [EvRead8 b]) -> run w1_read_8 sl Q.
Proof.
  intros HQ. unfold run, exec, w1_read_8.
  destruct (dev_read_8 bus (wire sl)) as [b d].
  exists (u8 b), [EvRead8 (u8 b)]. simpl. repeat split.
  apply HQ. unfold is_byte, u8. apply Z.mod_pos_bound. lia.
Qed.

Lemma run_msleep (ms : Z) (sl : w1_slave) (Q : unit -> list event -> Prop) :
  Q tt [EvMsleep ms] -> run (msleep ms) sl Q.
Proof. intros HQ. eexists tt, _. split; [|apply HQ]. done. Qed.

Lemma run_reset_bus (sl : w1_slave) (Q : unit -> list event -> Prop) :
  Q tt [EvResetBus] -> run w1_reset_bus sl Q.
Proof. intros HQ. eexists tt, _. split; [|apply HQ]. done. Qed.

Lemma run_mutex_lock (sl : w1_slave) (Q : unit -> list event -> Prop) :
  Q tt [EvMutexLock] -> run mutex_lock sl Q.
Proof. intros HQ. eexists tt, _. split; [|apply HQ]. done. Qed.

Lemma run_mutex_unlock (sl : w1_slave) (Q : unit -> list event -> Prop) :
  Q tt [EvMutexUnlock] -> run mutex_unlock sl Q.
Proof. intros HQ. eexists tt, _. split; [|apply HQ]. done. Qed.

Lemma run_get_family_data (sl : w1_slave)
    (Q : w1_b3_data -> list event -> Prop) :
  Q (family_data sl) [] -> run get_family_data sl Q.
Proof.
  intros HQ. exists (family_data sl), []. split; [|done].
  unfold exec, get_family_data. simpl. by rewrite app_nil_r.
Qed.

(** From a run to the result and the trace of the call. *)
Lemma run_elim {A : Type} (c : M A) (sl : w1_slave)
    (Q : A -> list event -> Prop) :
  run c sl Q ->
  exists evs, trace (snd (c sl)) = trace sl ++ evs /\ Q (fst (c sl)) evs.
Proof. intros (a & evs & (<- & Ht & _) & HQ). by exists evs. Qed.

Ltac prim :=
  first
    [ apply run_reset_select; intros ?rs
    | apply run_write_block
    | apply run_read_block; intros ?bs ?Hlen ?Hbytes
    | apply run_read_8; intros ?status ?Hstatus
    | apply run_msleep
    | apply run_reset_bus
    | apply run_mutex_lock
    | apply run_mutex_unlock
    | apply run_get_family_data ].

(** One bus operation and the rest of the command. *)
Ltac step := apply run_bind; prim; intros ?sl ?Hfd.

(** ** The commands *)

Lemma read_memory_runs (address : Z) (memory : list Z) (count : Z)
    (sl : w1_slave) :
  run (w1_ds2432_read_memory address memory count) sl
    (fun res evs =>
       exists rd, snd res = rd ++ drop (length rd) memory
                  /\ read_memory_run address count (fst res) rd evs).
Proof.
  unfold w1_ds2432_read_memory. step.
  destruct (Z.eqb_spec rs 0) as [->|Hne]; simpl.
  - do 2 step. apply run_ret. exists bs. split; [done|]. by constructor.
  - apply run_ret. exists []. split; [done|]. by constructor.
Qed.

Lemma write_scratchpad_runs (address : Z) (data : list Z) (sl : w1_slave) :
  run (w1_ds2432_write_scratchpad address data) sl
    (write_scratchpad_run address data).
Proof.
  unfold w1_ds2432_write_scratchpad. step.
  destruct (Z.eqb_spec rs 0) as [->|Hne]; simpl.
  - do 2 step. apply run_ret. by apply write_scratchpad_done.
  - apply run_ret. by constructor.
Qed.

Lemma scratchpad_address (ta1 ta2 : Z) :
  is_byte ta1 -> is_byte ta2 ->
  u16 (Z.lor (u16 (Z.shiftl ta2 8)) ta1) = ta2 * 256 + ta1.
Proof.
  unfold is_byte, u16. intros H1 H2.
  rewrite Z.shiftl_mul_pow2 by lia.
  rewrite (Z.mod_small (ta2 * 2 ^ 8)) by lia.
  rewrite <- Z.shiftl_mul_pow2 by lia.
  rewrite lor_shiftl_add by lia.
  apply Z.mod_small. lia.
Qed.

Lemma read_scratchpad_runs (out : Z * Z * list Z) (sl : w1_slave) :
  run (w1_ds2432_read_scratchpad out) sl
    (fun res evs => read_scratchpad_run out (fst res) (snd res) evs).
Proof.
  unfold w1_ds2432_read_scratchpad. step.
  destruct (Z.eqb_spec rs 0) as [->|Hne]; simpl.
  - do 2 step. rename bs into rdbuf, Hbytes into Hrdbuf, Hlen into Hlen3.
    step. rename bs into data, Hbytes into Hdata, Hlen into Hlen8.
    step. rename bs into crc. apply run_ret.
    destruct rdbuf as [|ta1 [|ta2 [|es [|]]]]; try discriminate.
    apply Forall_cons in Hrdbuf as [Hta1 Hrdbuf].
    apply Forall_cons in Hrdbuf as [Hta2 Hrdbuf].
    apply Forall_cons in Hrdbuf as [Hes _].
    simpl. change ([ta1; ta2; es] !!! 1%nat) with ta2.
    change ([ta1; ta2; es] !!! 0%nat) with ta1.
    change ([ta1; ta2; es] !!! 2%nat) with es.
    rewrite scratchpad_address by done.
    by apply read_scratchpad_done.
  - apply run_ret. by constructor.
Qed.

Lemma load_first_secret_runs (address es : Z) (sl : w1_slave) :
  run (w1_ds2432_load_first_secret address es) sl
    (load_first_secret_run address es).
Proof.
  unfold w1_ds2432_load_first_secret. step.
  destruct (Z.eqb_spec rs 0) as [->|Hne]; simpl.
  - do 3 step.
    replace (if negb (status =? 0xAA) && negb (status =? 0x55)
             then ret (- EIO) else ret 0)
      with (ret (A := Z)
              (if bool_decide (status = 0xAA \/ status = 0x55)
               then 0 else - EIO)).
    + apply run_ret. by apply load_first_secret_done.
    + case_bool_decide as Hs;
        destruct (Z.eqb_spec status 0xAA), (Z.eqb_spec status 0x55);
        simpl; try done; exfalso; tauto.
  - apply run_ret. by constructor.
Qed.

Lemma copy_scratchpad_runs (address es : Z) (mac : sha1) (sl : w1_slave) :
  run (w1_ds2432_copy_scratchpad address es mac) sl
    (copy_scratchpad_run address es mac).
Proof.
  unfold w1_ds2432_copy_scratchpad. step.
  destruct (Z.eqb_spec rs 0) as [->|Hne]; simpl.
  - do 5 step.
    replace (if status =? 0 then ret (- EACCES)
             else if status =? 0xff then ret (- EPERM)
             else if negb (status =? 0xAA) && negb (status =? 0x55)
                  then ret (- EIO) else ret 0)
      with (ret (A := Z) (disposition status)).
    + apply run_ret. by apply copy_scratchpad_done.
    + unfold disposition. repeat case_bool_decide;
        destruct (Z.eqb_spec status 0), (Z.eqb_spec status 0xff),
          (Z.eqb_spec status 0xAA), (Z.eqb_spec status 0x55);
        simpl; try done; exfalso; (lia || tauto).
  - apply run_ret. by constructor.
Qed.

(** ** A block write *)

Lemma es_partial_byte (es : Z) :
  negb (Z.land (Z.shiftr es 5) 1 =? 0) = Z.testbit es 5.
Proof.
  change 1 with (Z.ones 1) at 1. rewrite Z.land_ones by lia.
  change (2 ^ 1) with 2. rewrite <- Z.bit0_mod.
  rewrite Z.shiftr_spec by lia. change (0 + 5) with 5.
  by destruct (Z.testbit es 5).
Qed.

Lemma generate_mac_page_prefix (secret scratchpad page serial : list Z)
    (address : Z) :
  generate_mac secret scratchpad address page serial
  = generate_mac secret scratchpad address (take 28 page) serial.
Proof.
  unfold generate_mac, mac_message. cbv zeta.
  rewrite (for_loop_ext 28 4
             (fun i m => <[i := take 28 page !!! (i - 4)%nat]> m)
             (fun i m => <[i := page !!! (i - 4)%nat]> m));
    [reflexivity|].
  intros j m Hj. f_equal. apply lookup_total_take_lt. lia.
Qed.

Lemma write_scratchpad_run_result (address : Z) (data : list Z) (r : Z)
    (evs : list event) :
  write_scratchpad_run address data r evs -> r = 0 \/ r = - EIO.
Proof.
  intros [rs Hrs|crc Hcrc]; [by right|].
  unfold scratchpad_crc_check.
  destruct CONFIG_W1_SLAVE_DS2432_CRC; [|by left].
  destruct (negb _); auto.
Qed.

Lemma read_scratchpad_run_result (out readback : Z * Z * list Z) (r : Z)
    (evs : list event) :
  read_scratchpad_run out r readback evs -> r = 0 \/ r = - EIO.
Proof.
  intros [rs Hrs|ta1 ta2 es data crc]; [by right|].
  unfold scratchpad_crc_check.
  destruct CONFIG_W1_SLAVE_DS2432_CRC; [|by left].
  destruct (negb _); auto.
Qed.

Lemma read_scratchpad_run_length (out : Z * Z * list Z) (sp_address es : Z)
    (scratchpad : list Z) (evs : list event) :
  length (snd out) = 8%nat ->
  forall r, read_scratchpad_run out r (sp_address, es, scratchpad) evs ->
            length scratchpad = 8%nat.
Proof.
  intros Hout r Hrun. inversion Hrun; subst; simpl in *; done.
Qed.

Lemma write_block_runs (address : Z) (data : list Z) (sl : w1_slave) :
  run (eeprom_write_block address data) sl
    (write_block_run (family_data sl) address data).
Proof.
  unfold eeprom_write_block. step. rename Hfd into Hfd0.
  apply run_bind. eapply run_mono; [apply read_memory_runs|].
  intros [r page'] evs0 (page & Hpage & Hrun0) sl1 Hfd1.
  cbv beta iota. simpl in Hpage, Hrun0.
  destruct (Z.ltb_spec r 0) as [Hr|Hr].
  { apply run_ret. rewrite ?app_nil_r. cbn [app].
    by apply (write_block_page_failed _ _ _ r page). }
  assert (r = 0 /\ length page = 32%nat) as [-> Hlen].
  { inversion Hrun0; subst; [unfold EIO in Hr; lia|]. split; [done|lia]. }
  assert (page' = page) as ->.
  { rewrite Hpage, drop_ge, app_nil_r; [done|]. simpl. lia. }
  clear Hpage.
  apply run_bind. eapply run_mono; [apply write_scratchpad_runs|].
  intros r1 evs1 Hrun1 sl2 Hfd2.
  destruct (Z.ltb_spec r1 0) as [Hr1|Hr1].
  { apply run_ret. rewrite ?app_nil_r. cbn [app].
    by apply (write_block_stage_failed _ _ _ page). }
  assert (r1 = 0) as ->.
  { destruct (write_scratchpad_run_result _ _ _ _ Hrun1) as [->| ->];
      [done|unfold EIO in Hr1; lia]. }
  apply run_bind. eapply run_mono; [apply read_scratchpad_runs|].
  intros [r2 [[sp_address es] scratchpad]] evs2 Hrun2 sl3 Hfd3.
  cbv beta iota. simpl in Hrun2.
  destruct (Z.ltb_spec r2 0) as [Hr2|Hr2].
  { apply run_ret. rewrite ?app_nil_r. cbn [app].
    by apply (write_block_readback_failed _ _ _ page _ _ _
                (sp_address, es, scratchpad)). }
  assert (r2 = 0) as ->.
  { destruct (read_scratchpad_run_result _ _ _ _ Hrun2) as [->| ->];
      [done|unfold EIO in Hr2; lia]. }
  destruct (Z.eqb_spec sp_address address) as [->|Haddr]; cbn [negb].
  2:{ apply run_ret. rewrite ?app_nil_r. cbn [app].
      apply (write_block_integrity _ _ _ page _ _
               (sp_address, es, scratchpad)); try done.
      intros (? & _). done. }
  rewrite es_partial_byte.
  destruct (Z.testbit es 5) eqn:Hes.
  { apply run_ret. rewrite ?app_nil_r. cbn [app].
    apply (write_block_integrity _ _ _ page _ _
             (address, es, scratchpad)); try done.
    intros (_ & ? & _). simpl in *. congruence. }
  case_bool_decide as Hcmp; cbn [negb].
  2:{ apply run_ret. rewrite ?app_nil_r. cbn [app].
      apply (write_block_integrity _ _ _ page _ _
               (address, es, scratchpad)); try done.
      intros (_ & _ & ?). done. }
  eapply run_mono; [apply copy_scratchpad_runs|].
  intros r3 evs3 Hrun3. cbn [app].
  rewrite generate_mac_page_prefix in Hrun3.
  by apply (write_block_copy _ _ _ page _ _ es scratchpad).
Qed.


(** ** The copy of the scratchpad *)


Lemma low_byte (v : Z) : u8 (Z.land v 0xff) = Z.land v 0xff.
Proof.
  change 0xff with (Z.ones 8). rewrite Z.land_ones by lia.
  unfold u8. apply Z.mod_mod. lia.
Qed.

Lemma low_byte_u32 (x k : Z) :
  0 <= k <= 24 ->
  Z.land (Z.shiftr (u32 x) k) 0xff = Z.land (Z.shiftr x k) 0xff.
Proof.
  intros Hk. apply Z.bits_inj'. intros n Hn.
  change 0xff with (Z.ones 8).
  rewrite !Z.land_spec, !Z.shiftr_spec, Z.testbit_ones by lia.
  destruct (Z.ltb_spec n 8); [|by rewrite !andb_false_r].
  unfold u32. rewrite Z.mod_pow2_bits_low by lia. done.
Qed.

Lemma u32_shiftr (x k : Z) : 0 <= k -> u32 (Z.shiftr (u32 x) k) = Z.shiftr (u32 x) k.
Proof.
  intros Hk. unfold u32.
  assert (0 <= x mod 2 ^ 32 < 2 ^ 32) by (apply Z.mod_pos_bound; lia).
  apply Z.mod_small. rewrite Z.shiftr_div_pow2 by done. split.
  - apply Z.div_pos; lia.
  - apply Z.div_lt_upper_bound; [lia|].
    assert (1 <= 2 ^ k) by (apply (Z.pow_le_mono_r 2 0 k); lia). nia.
Qed.

Lemma put_le32_bytes (base : nat) (word : Z) (buf : list Z) :
  put_le32 base word buf
  = <[(base + 3)%nat := Z.land (Z.shiftr word 24) 0xff]>
      (<[(base + 2)%nat := Z.land (Z.shiftr word 16) 0xff]>
         (<[(base + 1)%nat := Z.land (Z.shiftr word 8) 0xff]>
            (<[(base + 0)%nat := Z.land word 0xff]> buf))).
Proof.
  unfold put_le32. cbn [for_loop fst]. rewrite !low_byte.
  rewrite !u32_shiftr by lia.
  rewrite !Z.shiftr_shiftr by lia.
  rewrite !low_byte_u32 by lia.
  rewrite <- (Z.shiftr_0_r (u32 (Z.shiftr word 8))).
  rewrite low_byte_u32, Z.shiftr_0_r by lia.
  rewrite !Z.shiftr_shiftr by lia. reflexivity.
Qed.

Lemma copy_scratchpad_mac_bytes (mac : sha1) :
  copy_scratchpad_mac mac
  = le32_bytes (sha1_e mac) ++ le32_bytes (sha1_d mac)
    ++ le32_bytes (sha1_c mac) ++ le32_bytes (sha1_b mac)
    ++ le32_bytes (sha1_a mac).
Proof.
  unfold copy_scratchpad_mac. rewrite !put_le32_bytes. reflexivity.
Qed.


(** ** The installation of a secret *)

Lemma load_first_secret_run_result (address es r : Z) (evs : list event) :
  load_first_secret_run address es r evs -> r = 0 \/ r = - EIO.
Proof.
  intros [rs Hrs|status Hstatus]; [by right|]. case_bool_decide; auto.
Qed.

Lemma write_secret_runs (new_secret : list Z) (sl : w1_slave) :
  run (w1_ds2432_write_secret new_secret) sl (write_secret_run new_secret).
Proof.
  unfold w1_ds2432_write_secret. step.
  destruct (Z.eqb_spec rs 0) as [->|Hne]; cbn [negb].
  2:{ apply run_ret. by constructor. }
  apply run_bind. eapply run_mono; [apply write_scratchpad_runs|].
  intros r1 evs1 Hrun1 sl1 Hfd1. unfold W1_DS2432_SECRET_ADDR in *.
  destruct (Z.ltb_spec r1 0) as [Hr1|Hr1].
  { apply run_ret. rewrite ?app_nil_r. cbn [app].
    by apply write_secret_stage_failed. }
  assert (r1 = 0) as ->.
  { destruct (write_scratchpad_run_result _ _ _ _ Hrun1) as [->| ->];
      [done|unfold EIO in Hr1; lia]. }
  apply run_bind. eapply run_mono; [apply read_scratchpad_runs|].
  intros [r2 [[address es] data]] evs2 Hrun2 sl2 Hfd2.
  cbv beta iota. simpl in Hrun2.
  destruct (Z.ltb_spec r2 0) as [Hr2|Hr2].
  { apply run_ret. rewrite ?app_nil_r. cbn [app].
    by apply (write_secret_readback_failed _ _ _ (address, es, data)). }
  assert (r2 = 0) as ->.
  { destruct (read_scratchpad_run_result _ _ _ _ Hrun2) as [->| ->];
      [done|unfold EIO in Hr2; lia]. }
  destruct (Z.eqb_spec address 0x80) as [->|Haddr]; cbn [negb].
  2:{ apply run_ret. rewrite ?app_nil_r. cbn [app].
      apply (write_secret_integrity _ _ address es data); auto. }
  rewrite es_partial_byte.
  destruct (Z.testbit es 5) eqn:Hes.
  { apply run_ret. rewrite ?app_nil_r. cbn [app].
    apply (write_secret_integrity _ _ 0x80 es data); auto. }
  apply run_bind. eapply run_mono; [apply load_first_secret_runs|].
  intros r3 evs3 Hrun3 sl3 Hfd3.
  destruct (Z.ltb_spec r3 0) as [Hr3|Hr3].
  { apply run_ret. rewrite ?app_nil_r. cbn [app].
    by apply (write_secret_load_failed _ _ es data). }
  assert (r3 = 0) as ->.
  { destruct (load_first_secret_run_result _ _ _ _ Hrun3) as [->| ->];
      [done|unfold EIO in Hr3; lia]. }
  step. apply run_ret. rewrite ?app_nil_r. cbn [app].
  by apply (write_secret_loaded _ _ es data).
Qed.


(** ** The write of a buffer *)

Lemma write_block_run_result (fd : w1_b3_data) (address : Z) (data : list Z)
    (r : Z) (evs : list event) :
  write_block_run fd address data r evs -> - 13 <= r <= 0.
Proof.
  assert (Hcopy : forall a e m r evs,
             copy_scratchpad_run a e m r evs -> - 13 <= r <= 0).
  { intros a e m r' evs' [rs Hrs|status Hstatus]; [unfold EIO; lia|].
    unfold disposition, EACCES, EPERM, EIO.
    repeat case_bool_decide; lia. }
  intros Hrun. inversion Hrun; subst.
  - match goal with H : read_memory_run _ _ _ _ _ |- _ =>
      inversion H; subst; unfold EIO; lia end.
  - match goal with H : write_scratchpad_run _ _ _ _ |- _ =>
      destruct (write_scratchpad_run_result _ _ _ _ H) as [->| ->];
      unfold EIO; lia end.
  - match goal with H : read_scratchpad_run _ _ _ _ |- _ =>
      destruct (read_scratchpad_run_result _ _ _ _ H) as [->| ->];
      unfold EIO; lia end.
  - unfold EIO; lia.
  - by eapply Hcopy.
Qed.

Lemma eeprom_write_block_result (address : Z) (data : list Z)
    (sl : w1_slave) :
  - 13 <= fst (eeprom_write_block address data sl) <= 0.
Proof.
  destruct (run_elim _ _ _ (write_block_runs address data sl))
    as (evs & _ & Hrun).
  by eapply write_block_run_result.
Qed.

Lemma ssize_t_size_t (r : Z) : - 2 ^ 63 <= r < 2 ^ 63 -> ssize_t (size_t r) = r.
Proof.
  intros Hr. unfold ssize_t, size_t.
  rewrite Zplus_mod_idemp_l. rewrite Z.mod_small; lia.
Qed.

Lemma eeprom_write_loop_blocks (buf : list Z) (count : Z) (n : nat) :
  forall (fuel : nat) (address : Z) (sl : w1_slave),
    0 <= address -> count <= 248 ->
    8 * (Z.of_nat n - 1) < count - address <= 8 * Z.of_nat n
    \/ (n = 0%nat /\ count <= address) ->
    (n < fuel)%nat ->
    eeprom_write_loop fuel buf address count sl
    = (let (result, sl') :=
         write_blocks buf
           (map (fun k => address + 8 * Z.of_nat k) (seq 0 n)) sl in
       (Some (if result <? 0 then size_t result else count), sl')).
Proof.
  induction n as [|n IH]; intros fuel address sl Ha Hc Hn Hfuel;
    (destruct fuel as [|fuel]; [lia|]); cbn [eeprom_write_loop].
  - destruct (Z.ltb_spec address count); [lia|]. reflexivity.
  - destruct (Z.ltb_spec address count); [|lia].
    change (seq 0 (S n)) with (0%nat :: seq 1 n).
    rewrite <- seq_shift, map_cons, map_map. cbn [write_blocks].
    replace (address + 8 * Z.of_nat 0) with address by lia.
    unfold bind.
    destruct (eeprom_write_block address (block_at buf address) sl)
      as [result sl1].
    destruct (Z.ltb_spec result 0) as [Hr|Hr].
    + unfold ret. destruct (Z.ltb_spec result 0); [done|lia].
    + assert (u8 (address + 8) = address + 8) as ->
        by (unfold u8; apply Z.mod_small; lia).
      rewrite (IH fuel (address + 8) sl1) by lia.
      erewrite map_ext; [reflexivity|]. intros k. simpl. lia.
Qed.

Lemma block_count_bounds (count : Z) :
  0 <= count <= 128 ->
  8 * (Z.of_nat (Z.to_nat ((count + 7) / 8)) - 1) < count
  /\ count <= 8 * Z.of_nat (Z.to_nat ((count + 7) / 8))
  /\ (Z.to_nat ((count + 7) / 8) <= 16)%nat.
Proof.
  intros Hcount.
  assert (0 <= (count + 7) / 8 <= 16) by (Z.div_mod_to_equations; lia).
  rewrite Z2Nat.id by lia.
  repeat split; [Z.div_mod_to_equations; lia ..|lia].
Qed.

(** C3 (as amended). A write of [count] bytes, at most 128, at offset 0 is
    the sequence of block writes at the addresses [off], [off + 8], ... one
    per eight bytes of [count]; the first block that fails ends the
    sequence, and the call returns the error of that block (not a count of
    the bytes committed before it); when no block fails it returns [count].
    Seventeen iterations of the loop are enough for it to return. *)
Theorem eeprom_write_decomposes (fuel : nat) (buf : list Z) (off count : Z)
    (sl : w1_slave) :
  off = 0 -> 0 <= count <= 128 -> (17 <= fuel)%nat ->
  eeprom_write fuel buf off count sl
  = (let (result, sl') := eeprom_write_by_blocks buf off count sl in
     (Some result, sl')).
Proof.
  intros -> Hcount Hfuel. unfold eeprom_write, eeprom_write_by_blocks, bind.
  destruct (mutex_lock sl) as [[] sl0].
  destruct (w1_reset_select_slave sl0) as [rs sl1].
  destruct (Z.eqb_spec rs 0) as [->|Hne]; cbn [negb].
  - pose proof (block_count_bounds count Hcount) as (Hlo & Hhi & Hn).
    rewrite (eeprom_write_loop_blocks buf count
               (Z.to_nat ((count + 7) / 8))) by lia.
    destruct (write_blocks buf _ sl1) as [result sl2] eqn:Hblocks.
    assert (Hres : - 13 <= result <= 0).
    { clear - Hblocks. revert sl1 Hblocks. generalize (Z.to_nat ((count + 7) / 8)).
      intros n. generalize (seq 0 n). intros ks.
      induction ks as [|k ks IH]; intros sl1 Hblocks; cbn in Hblocks.
      - injection Hblocks as <- _. lia.
      - unfold bind in Hblocks.
        pose proof (eeprom_write_block_result (0 + 8 * Z.of_nat k)
                      (block_at buf (0 + 8 * Z.of_nat k)) sl1) as Hr.
        destruct (eeprom_write_block _ _ sl1) as [r sl'].
        simpl in Hr. destruct (Z.ltb_spec r 0).
        + injection Hblocks as <- _. done.
        + by eapply IH. }
    unfold ret. cbv beta iota.
    destruct (mutex_unlock sl2) as [[] sl3]. do 2 f_equal.
    destruct (Z.ltb_spec result 0).
    + apply ssize_t_size_t. lia.
    + unfold ssize_t. rewrite Z.mod_small; lia.
  - unfold ret. cbv beta iota.
    destruct (mutex_unlock sl1) as [[] sl2]. reflexivity.
Qed.

(** ** The read of the data memory *)

Lemma read_memory_address (off : Z) :
  0 <= off < 256 ->
  u8 (Z.land (int off) 0xff) = off /\ u8 (Z.shiftr (int off) 8) = 0.
Proof.
  intros Hoff. unfold int, u8.
  rewrite (Z.mod_small (off + 2 ^ 31)) by lia.
  replace (off + 2 ^ 31 - 2 ^ 31) with off by lia.
  change 0xff with (Z.ones 8). rewrite Z.land_ones by lia.
  rewrite Z.mod_mod by lia. rewrite Z.shiftr_div_pow2 by lia.
  rewrite (Z.div_small off) by lia. split; apply Z.mod_small; lia.
Qed.

Lemma eeprom_read_runs (buf : list Z) (off count : Z) (sl : w1_slave) :
  0 <= off < 2 ^ 63 -> 0 <= count < 2 ^ 63 ->
  let n := if off >? 0x80 then 0 else Z.min count (0x80 - off) in
  n <> 0 ->
  run (eeprom_read buf off count) sl
    (fun res evs =>
       exists evs',
         evs = EvMutexLock :: evs' ++ [EvMutexUnlock]
         /\ ((exists rs, rs <> 0 /\ evs' = [EvResetSelect rs]
                         /\ res = (- EIO, buf))
             \/ (exists rs, rs <> 0
                            /\ evs' = [EvResetSelect 0; EvResetSelect rs]
                            /\ res = (n, buf))
             \/ (exists rd,
                   length rd = Z.to_nat n
                   /\ evs' = [EvResetSelect 0; EvResetSelect 0;
                              EvWriteBlock [0xF0; off; 0]; EvReadBlock rd]
                   /\ res = (n, rd ++ drop (Z.to_nat n) buf)))).
Proof.
  intros Hoff Hcount n Hn. unfold eeprom_read.
  unfold W1_DS2432_DATA_MEMORY_SIZE.
  rewrite w1_b3_fix_count_bounded by done. fold n.
  destruct (Z.eqb_spec n 0) as [|_]; [done|].
  assert (Hrange : 0 < n <= 0x80 /\ 0 <= off < 0x80).
  { unfold n in *. destruct (Z.gtb_spec off 0x80); lia. }
  do 2 step. apply run_bind.
  destruct (Z.eqb_spec rs 0) as [->|Hne]; cbn [negb].
  - apply run_bind. eapply run_mono; [apply read_memory_runs|].
    intros [r mem] evs0 (rd & Hmem & Hrun) ?sl ?Hfd.
    cbv beta iota. simpl in Hmem, Hrun. subst mem.
    apply run_ret. intros ?sl ?Hfd. step. apply run_ret.
    rewrite ?app_nil_r. cbn [app].
    assert (Hn' : ssize_t n = n)
      by (unfold ssize_t; rewrite Z.mod_small; lia).
    rewrite Hn'.
    inversion Hrun; subst.
    + exists [EvResetSelect 0; EvResetSelect rs]. split; [done|].
      right. left. by exists rs.
    + destruct (read_memory_address off ltac:(lia)) as [-> ->].
      exists [EvResetSelect 0; EvResetSelect 0;
              EvWriteBlock [0xF0; off; 0]; EvReadBlock rd].
      split; [done|]. right. right. exists rd.
      split; [done|]. split; [done|].
      by replace (Z.to_nat n) with (length rd).
  - apply run_ret. intros ?sl ?Hfd. step. apply run_ret.
    exists [EvResetSelect rs]. split; [done|]. left. exists rs.
    split; [done|]. split; [done|].
    by rewrite ssize_t_size_t by (unfold EIO; lia).
Qed.

(** C10 (as amended). For an offset and a count that are not negative and
    fit the signed 64-bit types (so that their sum does not wrap), the count
    that is read is 0 when [off] exceeds 128 and the smaller of [count] and
    [128 - off] otherwise.  When it is 0 the call returns 0 and the buffer
    as it was, with no bus operation and no lock; when it is not, the bytes
    of the one read there is are that many, from address [off], so the read
    ends at or before byte 128, and the call returns that count or
    [-EIO]. *)
Theorem eeprom_read_within_data_memory (buf : list Z) (off count : Z)
    (sl : w1_slave) :
  0 <= off < 2 ^ 63 -> 0 <= count < 2 ^ 63 ->
  let n := w1_b3_fix_count off count W1_DS2432_DATA_MEMORY_SIZE in
  n = (if off >? 128 then 0 else Z.min count (128 - off))
  /\ (n = 0 -> eeprom_read buf off count sl = ((0, buf), sl))
  /\ (n <> 0 ->
      off + n <= 128
      /\ exists evs,
           trace (snd (eeprom_read buf off count sl))
           = trace sl ++ EvMutexLock :: evs ++ [EvMutexUnlock]
           /\ ((exists rs, rs <> 0 /\ evs = [EvResetSelect rs]
                           /\ fst (eeprom_read buf off count sl)
                              = (- EIO, buf))
               \/ (exists rs, rs <> 0
                              /\ evs = [EvResetSelect 0; EvResetSelect rs]
                              /\ fst (eeprom_read buf off count sl)
                                 = (n, buf))
               \/ (exists rd,
                     length rd = Z.to_nat n
                     /\ evs = [EvResetSelect 0; EvResetSelect 0;
                               EvWriteBlock [0xF0; off; 0]; EvReadBlock rd]
                     /\ fst (eeprom_read buf off count sl)
                        = (n, rd ++ drop (Z.to_nat n) buf)))).
Proof.
  intros Hoff Hcount n.
  assert (Hn : n = (if off >? 128 then 0 else Z.min count (128 - off)))
    by (by apply w1_b3_fix_count_bounded).
  split; [done|]. split.
  - intros Hz. unfold eeprom_read. fold n. rewrite Hz. reflexivity.
  - intros Hnz. split; [destruct (Z.gtb_spec off 128); lia|].
    rewrite Hn in Hnz.
    destruct (run_elim _ _ _
                (eeprom_read_runs buf off count sl Hoff Hcount Hnz))
      as (evs & Htrace & evs' & -> & Hcases).
    exists evs'. split; [done|]. by rewrite Hn.
Qed.

(** ** The synchronisation of the secret *)


(** ** More on the MAC on the wire *)

(** X2. The serialisation of the MAC loses nothing: two MACs of 32-bit
    words that go on the wire as the same 20 bytes are the same MAC. *)
Theorem copy_scratchpad_mac_injective (mac mac' : sha1) :
  Forall (fun w => 0 <= w < 2 ^ 32) (sha1_words mac) ->
  Forall (fun w => 0 <= w < 2 ^ 32) (sha1_words mac') ->
  copy_scratchpad_mac mac = copy_scratchpad_mac mac' ->
  mac = mac'.
Proof using Type.
  unfold sha1_words. intros Hm Hm' Heq.
  apply Forall_cons in Hm as [Ha Hm]. apply Forall_cons in Hm as [Hb Hm].
  apply Forall_cons in Hm as [Hc Hm]. apply Forall_cons in Hm as [Hd Hm].
  apply Forall_cons in Hm as [He _].
  apply Forall_cons in Hm' as [Ha' Hm']. apply Forall_cons in Hm' as [Hb' Hm'].
  apply Forall_cons in Hm' as [Hc' Hm']. apply Forall_cons in Hm' as [Hd' Hm'].
  apply Forall_cons in Hm' as [He' _].
  rewrite !copy_scratchpad_mac_bytes in Heq.
  apply app_inj_1 in Heq as [Hwe Heq]; [|done].
  apply app_inj_1 in Heq as [Hwd Heq]; [|done].
  apply app_inj_1 in Heq as [Hwc Heq]; [|done].
  apply app_inj_1 in Heq as [Hwb Hwa]; [|done].
  destruct mac, mac'. simpl in *. f_equal; by apply le32_bytes_inj.
Qed.

(** ** More on the runs: the mutex and the family data *)

Lemma run_elim_family {A : Type} (c : M A) (sl : w1_slave)
    (Q : A -> list event -> Prop) :
  run c sl Q ->
  family_data (snd (c sl)) = family_data sl
  /\ exists evs, trace (snd (c sl)) = trace sl ++ evs /\ Q (fst (c sl)) evs.
Proof. intros (a & evs & (<- & Ht & Hf) & HQ). split; [done|]. by exists evs. Qed.

Ltac bus_events :=
  repeat first
    [ apply Forall_nil_2
    | apply Forall_cons_2; [split; discriminate|]
    | apply Forall_app_2 ];
  try done.

Lemma read_memory_run_bus (address count r : Z) (rd : list Z)
    (evs : list event) :
  read_memory_run address count r rd evs -> Forall bus_event evs.
Proof. intros [rs Hrs|rd' Hlen Hbytes]; bus_events. Qed.

Lemma write_scratchpad_run_bus (address : Z) (data : list Z) (r : Z)
    (evs : list event) :
  write_scratchpad_run address data r evs -> Forall bus_event evs.
Proof. intros [rs Hrs|crc Hcrc]; bus_events. Qed.

Lemma read_scratchpad_run_bus (out readback : Z * Z * list Z) (r : Z)
    (evs : list event) :
  read_scratchpad_run out r readback evs -> Forall bus_event evs.
Proof. intros [rs Hrs|ta1 ta2 es data crc]; bus_events. Qed.

Lemma load_first_secret_run_bus (address es r : Z) (evs : list event) :
  load_first_secret_run address es r evs -> Forall bus_event evs.
Proof. intros [rs Hrs|status Hstatus]; bus_events. Qed.

Lemma copy_scratchpad_run_bus (address es : Z) (mac : sha1) (r : Z)
    (evs : list event) :
  copy_scratchpad_run address es mac r evs -> Forall bus_event evs.
Proof. intros [rs Hrs|status Hstatus]; bus_events. Qed.

Lemma write_block_run_bus (fd : w1_b3_data) (address : Z) (data : list Z)
    (r : Z) (evs : list event) :
  write_block_run fd address data r evs -> Forall bus_event evs.
Proof.
  intros Hrun. inversion Hrun; subst;
    repeat match goal with
           | H : read_memory_run _ _ _ _ _ |- _ =>
               apply read_memory_run_bus in H
           | H : write_scratchpad_run _ _ _ _ |- _ =>
               apply write_scratchpad_run_bus in H
           | H : read_scratchpad_run _ _ _ _ |- _ =>
               apply read_scratchpad_run_bus in H
           | H : copy_scratchpad_run _ _ _ _ _ |- _ =>
               apply copy_scratchpad_run_bus in H
           end;
    bus_events.
Qed.

Lemma write_secret_run_bus (new_secret : list Z) (r : Z) (evs : list event) :
  write_secret_run new_secret r evs -> Forall bus_event evs.
Proof.
  intros Hrun. inversion Hrun; subst;
    repeat match goal with
           | H : write_scratchpad_run _ _ _ _ |- _ =>
               apply write_scratchpad_run_bus in H
           | H : read_scratchpad_run _ _ _ _ |- _ =>
               apply read_scratchpad_run_bus in H
           | H : load_first_secret_run _ _ _ _ |- _ =>
               apply load_first_secret_run_bus in H
           end;
    bus_events.
Qed.

(** The loop of [eeprom_write], whatever the fuel: bus events only, and a
    result that is the count or the error of a block. *)
Lemma eeprom_write_loop_runs (buf : list Z) (count : Z) (fuel : nat) :
  forall (address : Z) (sl : w1_slave),
    run (eeprom_write_loop fuel buf address count) sl
      (fun r evs =>
         Forall bus_event evs
         /\ (r = None \/ r = Some count
             \/ exists e, - 13 <= e < 0 /\ r = Some (size_t e))).
Proof.
  induction fuel as [|fuel IH]; intros address sl; cbn [eeprom_write_loop].
  - apply run_ret. split; [bus_events|by left].
  - destruct (Z.ltb_spec address count).
    + apply run_bind. eapply run_mono; [apply write_block_runs|].
      intros r evs Hrun ?sl ?Hfd.
      pose proof (write_block_run_result _ _ _ _ _ Hrun) as Hr.
      pose proof (write_block_run_bus _ _ _ _ _ Hrun) as Hbus.
      destruct (Z.ltb_spec r 0).
      * apply run_ret. split; [bus_events|]. right. right. exists r.
        split; [lia|done].
      * eapply run_mono; [apply IH|]. intros r' evs' [Hbus' Hr'].
        split; [bus_events|done].
    + apply run_ret. split; [bus_events|]. right. by left.
Qed.

Lemma eeprom_read_locked (buf : list Z) (off count : Z) (sl : w1_slave) :
  run (eeprom_read buf off count) sl (fun _ evs => locked_section evs).
Proof.
  unfold eeprom_read.
  destruct (w1_b3_fix_count off count W1_DS2432_DATA_MEMORY_SIZE =? 0).
  { apply run_ret. by left. }
  do 2 step. apply run_bind.
  destruct (Z.eqb_spec rs 0) as [->|Hne]; cbn [negb].
  - apply run_bind. eapply run_mono; [apply read_memory_runs|].
    intros [r mem] evs0 (rd & Hmem & Hrun) ?sl ?Hfd. cbv beta iota.
    apply read_memory_run_bus in Hrun.
    apply run_ret. intros ?sl ?Hfd. step. apply run_ret.
    right. exists (EvResetSelect 0 :: evs0). split.
    + cbn [app]. by rewrite ?app_nil_r.
    + bus_events.
  - apply run_ret. intros ?sl ?Hfd. step. apply run_ret.
    right. exists [EvResetSelect rs]. split; [done|bus_events].
Qed.




(** ** More on the scratchpad commands *)





Lemma address_bytes (address : Z) :
  0 <= address < 2 ^ 16 ->
  u8 (Z.shiftr address 8) * 256 + u8 (Z.land address 0xff) = address.
Proof using Type.
  intros Ha. unfold u8. change 0xff with (Z.ones 8).
  rewrite Z.land_ones, Z.shiftr_div_pow2 by lia. rewrite Z.mod_mod by lia.
  change (2 ^ 8) with 256. change (2 ^ 16) with 65536 in Ha.
  clear - Ha. Z.div_mod_to_equations. lia.
Qed.

(** X5. The address survives the scratchpad: when the chip, asked for its
    scratchpad, sends back the two address bytes that write-scratchpad
    sends for a 16-bit [address], then an ES byte and eight data bytes,
    read-scratchpad returns [address], that ES byte and those data bytes;
    if they are the data that was staged and bit 5 of ES is clear, the
    three checks of a block write pass. *)
Theorem scratchpad_address_round_trip (address es : Z) (data crc : list Z)
    (out : Z * Z * list Z) (sl : w1_slave) :
  0 <= address < 2 ^ 16 ->
  trace (snd (w1_ds2432_read_scratchpad out sl))
  = trace sl ++ [EvResetSelect 0;
                 EvWriteBlock [0xAA];
                 EvReadBlock [write_scratchpad_frame address data !!! 1%nat;
                              write_scratchpad_frame address data !!! 2%nat;
                              es];
                 EvReadBlock data;
                 EvReadBlock crc] ->
  snd (fst (w1_ds2432_read_scratchpad out sl)) = (address, es, data)
  /\ (Z.testbit es 5 = false ->
      staged_as_sent address data
        (snd (fst (w1_ds2432_read_scratchpad out sl)))).
Proof.
  intros Ha Htrace.
  destruct (run_elim _ _ _ (read_scratchpad_runs out sl))
    as (evs & Htrace' & Hrun).
  rewrite Htrace in Htrace'. apply app_inv_head in Htrace'. subst evs.
  assert (Hres : snd (fst (w1_ds2432_read_scratchpad out sl))
                 = (address, es, data)).
  { inversion Hrun as [|ta1 ta2 es' data' crc' H1 H2 H3 H4 H5 H6 Hr Hout].
    by rewrite address_bytes. }
  split; [done|]. intros Hes. rewrite Hres. by repeat split.
Qed.

(** ** More on a block write *)

Lemma write_block_run_outcome (fd : w1_b3_data) (address : Z)
    (data : list Z) (r : Z) (evs : list event) :
  write_block_run fd address data r evs ->
  (r = 0 \/ r = - EIO \/ r = - EACCES \/ r = - EPERM)
  /\ (r <> - EIO ->
      exists pre status,
        evs = pre ++ [EvRead8 status]
        /\ In (EvWriteBlock (write_scratchpad_frame address data)) pre
        /\ (r = 0 -> status = 0xAA \/ status = 0x55)
        /\ (r = - EACCES -> status = 0x00)
        /\ (r = - EPERM -> status = 0xFF)).
Proof.
  intros Hrun. inversion Hrun; subst.
  - match goal with H : read_memory_run _ _ _ _ _ |- _ =>
      inversion H; subst; [|lia] end.
    split; [auto|done].
  - match goal with H : write_scratchpad_run _ _ _ _ |- _ =>
      destruct (write_scratchpad_run_result _ _ _ _ H) as [->| ->] end;
      [lia|split; [auto|done]].
  - match goal with H : read_scratchpad_run _ _ _ _ |- _ =>
      destruct (read_scratchpad_run_result _ _ _ _ H) as [->| ->] end;
      [lia|split; [auto|done]].
  - split; [auto|done].
  - match goal with H : copy_scratchpad_run _ _ _ _ _ |- _ =>
      inversion H as [rs Hrs|status Hstatus]; subst end;
      [split; [auto|done]|].
    assert (Hframe : In (EvWriteBlock (write_scratchpad_frame address data))
                       evs1).
    { match goal with H : write_scratchpad_run _ _ 0 evs1 |- _ =>
        inversion H as [rs Hrs Hr|crc Hcrc Hr]; subst end.
      simpl. auto. }
    split.
    + unfold disposition. repeat case_bool_decide; auto.
    + intros Hne.
      exists (evs0 ++ evs1 ++ evs2
              ++ [EvResetSelect 0;
                  EvWriteBlock [0x55; u8 (Z.land address 0xff);
                                u8 (Z.land (Z.shiftr address 8) 0xff); es];
                  EvMsleep 2;
                  EvWriteBlock
                    (copy_scratchpad_mac
                       (generate_mac (secret fd) scratchpad address
                          (take 28 page) (registration_number fd)));
                  EvMsleep 10]), status.
      split; [by rewrite <- !app_assoc|].
      split; [apply in_or_app; right; apply in_or_app; by left|].
      unfold disposition, EACCES, EPERM, EIO in *.
      repeat case_bool_decide; repeat split; intros; (lia || tauto).
Qed.

(** X6. A block write returns 0, [-EIO], [-EACCES] or [-EPERM], and every
    result other than [-EIO] was read from the chip as the last byte of the
    run, after the data had been staged: 0 only after the chip answered
    [0xAA] or [0x55], [-EACCES] only after [0x00], [-EPERM] only after
    [0xFF]. *)
Theorem eeprom_write_block_outcomes (address : Z) (data : list Z)
    (sl : w1_slave) :
  let r := fst (eeprom_write_block address data sl) in
  exists evs,
    trace (snd (eeprom_write_block address data sl)) = trace sl ++ evs
    /\ (r = 0 \/ r = - EIO \/ r = - EACCES \/ r = - EPERM)
    /\ (r <> - EIO ->
        exists pre status,
          evs = pre ++ [EvRead8 status]
          /\ In (EvWriteBlock (write_scratchpad_frame address data)) pre
          /\ (r = 0 -> status = 0xAA \/ status = 0x55)
          /\ (r = - EACCES -> status = 0x00)
          /\ (r = - EPERM -> status = 0xFF)).
Proof.
  intros r.
  destruct (run_elim _ _ _ (write_block_runs address data sl))
    as (evs & Htrace & Hrun).
  exists evs. split; [done|]. by eapply write_block_run_outcome.
Qed.

(** ** More on the write of a buffer *)

Lemma write_blocks_result (buf : list Z) (addresses : list Z) :
  forall sl, - 13 <= fst (write_blocks buf addresses sl) <= 0.
Proof.
  induction addresses as [|a rest IH]; intros sl; cbn [write_blocks].
  - simpl. lia.
  - unfold bind.
    pose proof (eeprom_write_block_result a (block_at buf a) sl) as Hr.
    destruct (eeprom_write_block a (block_at buf a) sl) as [r sl'].
    simpl in Hr. destruct (Z.ltb_spec r 0); [done|apply IH].
Qed.

(** X7. The offset of a write is not used: a write of [count] bytes, at
    most 128, at any offset [off] is the sequence of block writes that
    starts at address 0 of the chip, with the bytes taken from the start of
    the buffer. *)
Theorem eeprom_write_ignores_offset (fuel : nat) (buf : list Z)
    (off count : Z) (sl : w1_slave) :
  0 <= count <= 128 -> (17 <= fuel)%nat ->
  eeprom_write fuel buf off count sl
  = (let (result, sl') := eeprom_write_by_blocks buf 0 count sl in
     (Some result, sl')).
Proof.
  intros Hcount Hfuel. unfold eeprom_write, eeprom_write_by_blocks, bind.
  destruct (mutex_lock sl) as [[] sl0].
  destruct (w1_reset_select_slave sl0) as [rs sl1].
  destruct (Z.eqb_spec rs 0) as [->|Hne]; cbn [negb].
  - pose proof (block_count_bounds count Hcount) as (Hlo & Hhi & Hn).
    rewrite (eeprom_write_loop_blocks buf count
               (Z.to_nat ((count + 7) / 8))) by lia.
    pose proof (write_blocks_result buf
                  (map (fun k => 0 + 8 * Z.of_nat k)
                     (seq 0 (Z.to_nat ((count + 7) / 8)))) sl1) as Hres.
    destruct (write_blocks buf _ sl1) as [result sl2]. simpl in Hres.
    unfold ret. cbv beta iota.
    destruct (mutex_unlock sl2) as [[] sl3]. do 2 f_equal.
    destruct (Z.ltb_spec result 0).
    + apply ssize_t_size_t. lia.
    + unfold ssize_t. rewrite Z.mod_small; lia.
  - unfold ret. cbv beta iota.
    destruct (mutex_unlock sl1) as [[] sl2]. reflexivity.
Qed.

Lemma eeprom_write_loop_wraps (buf : list Z) (count : Z) (fuel : nat) :
  248 < count ->
  forall (address : Z) (sl : w1_slave),
    0 <= address <= 248 -> address mod 8 = 0 ->
    fst (eeprom_write_loop fuel buf address count sl) = None
    \/ exists e, - 13 <= e < 0
                 /\ fst (eeprom_write_loop fuel buf address count sl)
                    = Some (size_t e).
Proof.
  intros Hcount.
  induction fuel as [|fuel IH]; intros address sl Ha Hmod;
    cbn [eeprom_write_loop]; [by left|].
  destruct (Z.ltb_spec address count); [|lia].
  unfold bind.
  pose proof (eeprom_write_block_result address (block_at buf address) sl)
    as Hr.
  destruct (eeprom_write_block address (block_at buf address) sl) as [r sl'].
  simpl in Hr. destruct (Z.ltb_spec r 0).
  - right. exists r. split; [lia|done].
  - apply IH; unfold u8; change (2 ^ 8) with 256;
      Z.div_mod_to_equations; lia.
Qed.

(** X8. The address of the loop of [eeprom_write] is a [u8] that wraps from
    248 to 0: for a count above 248 the call never returns the count.
    Whatever the number of iterations, the loop is still running or the
    call has returned the error of a block. *)
Theorem eeprom_write_above_248_never_completes (fuel : nat) (buf : list Z)
    (off count : Z) (sl : w1_slave) :
  248 < count ->
  fst (eeprom_write fuel buf off count sl) = None
  \/ exists e, - 13 <= e < 0
               /\ fst (eeprom_write fuel buf off count sl) = Some e.
Proof.
  intros Hcount. unfold eeprom_write, bind.
  destruct (mutex_lock sl) as [[] sl0].
  destruct (w1_reset_select_slave sl0) as [rs sl1].
  destruct (Z.eqb_spec rs 0) as [->|Hne]; cbn [negb].
  - destruct (eeprom_write_loop_wraps buf count fuel Hcount 0 sl1
                ltac:(lia) eq_refl) as [Hnone|(e & He & Hsome)].
    + destruct (eeprom_write_loop fuel buf 0 count sl1) as [r sl2].
      simpl in Hnone. subst r. by left.
    + destruct (eeprom_write_loop fuel buf 0 count sl1) as [r sl2].
      simpl in Hsome. subst r. cbv beta iota.
      destruct (mutex_unlock sl2) as [[] sl3]. right. exists e.
      split; [done|]. simpl. f_equal. apply ssize_t_size_t. lia.
  - unfold ret. cbv beta iota.
    destruct (mutex_unlock sl1) as [[] sl2]. right.
    exists (- EIO). unfold EIO. split; [lia|reflexivity].
Qed.

(** ** The shadow of the secret *)

(** X9. The bytes written to [secret] are read back from it: after
    [secret_write] of a buffer of eight bytes or more, [secret_read] returns
    8 and puts the first eight bytes of that buffer at the start of the
    reader's; neither of the two adds anything to the trace of the bus, and
    neither changes the state of the wire. *)
Theorem secret_write_read_round_trip (wbuf rbuf : list Z)
    (off count off' count' : Z) (sl : w1_slave) :
  (8 <= length wbuf)%nat ->
  let sl1 := snd (secret_write wbuf off count sl) in
  fst (secret_read rbuf off' count' sl1) = (8, take 8 wbuf ++ drop 8 rbuf)
  /\ trace (snd (secret_read rbuf off' count' sl1)) = trace sl
  /\ wire (snd (secret_read rbuf off' count' sl1)) = wire sl
  /\ registration_number (family_data sl1)
     = registration_number (family_data sl).
Proof.
  intros Hlen sl1. unfold sl1, secret_read, secret_write, bind, ret,
    get_family_data. simpl. by rewrite take_take.
Qed.

(** X10. The secret that authenticates a block write is the shadow: after
    [secret_write] of a buffer, the MAC that a block write sends with
    copy-scratchpad is computed with the first eight bytes of that buffer
    for secret (and the registration number as it was). *)
Theorem secret_write_then_block_write (wbuf : list Z) (off count : Z)
    (address : Z) (data : list Z) (sl : w1_slave) :
  let sl1 := snd (secret_write wbuf off count sl) in
  exists evs,
    trace (snd (eeprom_write_block address data sl1)) = trace sl ++ evs
    /\ write_block_run
         {| secret := take 8 wbuf;
            registration_number := registration_number (family_data sl) |}
         address data (fst (eeprom_write_block address data sl1)) evs.
Proof.
  intros sl1.
  destruct (run_elim _ _ _ (write_block_runs address data sl1))
    as (evs & Htrace & Hrun).
  exists evs. split; [exact Htrace|exact Hrun].
Qed.


(** ** The mutex of the bus and the family data *)

Lemma locked_section_intro (evs : list event) :
  Forall bus_event evs ->
  locked_section ([EvMutexLock] ++ evs ++ [EvMutexUnlock] ++ []).
Proof. intros Hbus. right. exists evs. split; [done|done]. Qed.

Lemma eeprom_write_locked (fuel : nat) (buf : list Z) (off count : Z)
    (sl : w1_slave) :
  run (eeprom_write fuel buf off count) sl
    (fun r evs =>
       match r with
       | Some _ => locked_section evs
       | None => mutex_held evs
       end).
Proof.
  unfold eeprom_write. do 2 step. apply run_bind.
  destruct (Z.eqb_spec rs 0) as [->|Hne]; cbn [negb].
  - eapply run_mono; [apply eeprom_write_loop_runs|].
    intros [r|] evs0 [Hbus _] ?sl ?Hfd.
    + step. apply run_ret.
      apply (locked_section_intro (EvResetSelect 0 :: evs0)). bus_events.
    + apply run_ret. exists (EvResetSelect 0 :: evs0).
      split; [by rewrite app_nil_r|bus_events].
  - apply run_ret. intros ?sl ?Hfd. step. apply run_ret.
    apply (locked_section_intro [EvResetSelect rs]). bus_events.
Qed.

Lemma secret_sync_write_locked (buf : list Z) (off count : Z)
    (sl : w1_slave) :
  run (secret_sync_write buf off count) sl
    (fun _ evs => locked_section evs).
Proof.
  unfold secret_sync_write. do 3 step. apply run_bind.
  destruct (Z.eqb_spec rs 0) as [->|Hne]; cbn [negb].
  - apply run_bind. eapply run_mono; [apply write_secret_runs|].
    intros r' evs' Hrun ?sl ?Hfd. apply write_secret_run_bus in Hrun.
    apply run_ret. intros ?sl ?Hfd. step. apply run_ret.
    right. exists (EvResetSelect 0 :: evs'). split.
    + cbn [app]. by rewrite ?app_nil_r.
    + bus_events.
  - apply run_ret. intros ?sl ?Hfd. step. apply run_ret.
    right. exists [EvResetSelect rs]. split; [done|bus_events].
Qed.

Lemma register_page_read_locked (buf : list Z) (off count : Z)
    (sl : w1_slave) :
  run (register_page_read buf off count) sl
    (fun _ evs => locked_section evs).
Proof.
  unfold register_page_read. step.
  apply run_bind. eapply run_mono; [apply read_memory_runs|].
  intros [r mem] evs0 (rd & Hmem & Hrun) ?sl ?Hfd. cbv beta iota.
  apply read_memory_run_bus in Hrun. apply run_bind.
  destruct (negb (r =? 0)).
  - apply run_ret. intros ?sl ?Hfd. step. apply run_ret.
    right. exists evs0. split; [|done]. cbn [app]. by rewrite ?app_nil_r.
  - step. apply run_ret. intros ?sl ?Hfd. step. apply run_ret.
    right. exists (evs0 ++ [EvResetBus]). split.
    + cbn [app]. by rewrite ?app_nil_r, <- ?app_assoc.
    + bus_events.
Qed.

Lemma register_field_read_locked (field : Z) (buf : list Z) (off count : Z)
    (sl : w1_slave) :
  run (register_field_read field buf off count) sl
    (fun _ evs => locked_section evs).
Proof.
  unfold register_field_read. do 2 step. apply run_bind.
  destruct (Z.eqb_spec rs 0) as [->|Hne]; cbn [negb].
  - apply run_bind. eapply run_mono; [apply read_memory_runs|].
    intros [r mem] evs0 (rd & Hmem & Hrun) ?sl ?Hfd. cbv beta iota.
    apply read_memory_run_bus in Hrun.
    apply run_ret. intros ?sl ?Hfd. step. apply run_ret.
    right. exists (EvResetSelect 0 :: evs0). split.
    + cbn [app]. by rewrite ?app_nil_r.
    + bus_events.
  - apply run_ret. intros ?sl ?Hfd. step. apply run_ret.
    right. exists [EvResetSelect rs]. split; [done|bus_events].
Qed.

Lemma write_protect_pages_03_read_locked (buf : list Z) (off count : Z)
    (sl : w1_slave) :
  run (write_protect_pages_03_read buf off count) sl
    (fun _ evs => locked_section evs).
Proof.
  unfold write_protect_pages_03_read. step.
  apply run_bind. eapply run_mono; [apply read_memory_runs|].
  intros [r mem] evs0 (rd & Hmem & Hrun) ?sl ?Hfd. cbv beta iota.
  apply read_memory_run_bus in Hrun. apply run_bind.
  destruct (negb (r =? 0)).
  - apply run_ret. intros ?sl ?Hfd. step. apply run_ret.
    right. exists evs0. split; [|done]. cbn [app]. by rewrite ?app_nil_r.
  - step. apply run_ret. intros ?sl ?Hfd. step. apply run_ret.
    right. exists (evs0 ++ [EvResetBus]). split.
    + cbn [app]. by rewrite ?app_nil_r, <- ?app_assoc.
    + bus_events.
Qed.

(** X12. Every attribute file that takes the mutex of the bus releases it
    before it returns, on every path, errors included: what a call of
    [eeprom_read], [eeprom_write], [secret_sync_write],
    [register_page_read], [write_protect_pages_03_read] or of one of the
    reads of a field of the register page has added to the trace when it
    returns is nothing at all, or the taking of the mutex first, the
    release of the mutex last and, between the two, bus operations only.
    As long as the loop of [eeprom_write] is running, the mutex has been
    taken and is not released. *)
Theorem attribute_files_release_the_mutex (fuel : nat) (field : Z)
    (buf : list Z) (off count : Z) (sl : w1_slave) :
  (exists evs,
     trace (snd (eeprom_read buf off count sl)) = trace sl ++ evs
     /\ locked_section evs)
  /\ (exists evs,
        trace (snd (eeprom_write fuel buf off count sl)) = trace sl ++ evs
        /\ match fst (eeprom_write fuel buf off count sl) with
           | Some _ => locked_section evs
           | None => mutex_held evs
           end)
  /\ (exists evs,
        trace (snd (secret_sync_write buf off count sl)) = trace sl ++ evs
        /\ locked_section evs)
  /\ (exists evs,
        trace (snd (register_page_read buf off count sl)) = trace sl ++ evs
        /\ locked_section evs)
  /\ (exists evs,
        trace (snd (write_protect_pages_03_read buf off count sl))
        = trace sl ++ evs
        /\ locked_section evs)
  /\ (exists evs,
        trace (snd (register_field_read field buf off count sl))
        = trace sl ++ evs
        /\ locked_section evs).
Proof.
  split; [apply (run_elim _ _ _ (eeprom_read_locked buf off count sl))|].
  split;
    [apply (run_elim _ _ _ (eeprom_write_locked fuel buf off count sl))|].
  split;
    [apply (run_elim _ _ _ (secret_sync_write_locked buf off count sl))|].
  split;
    [apply (run_elim _ _ _ (register_page_read_locked buf off count sl))|].
  split;
    [apply (run_elim _ _ _
              (write_protect_pages_03_read_locked buf off count sl))|].
  apply (run_elim _ _ _ (register_field_read_locked field buf off count sl)).
Qed.

(** X13. No command of the chip and no attribute file but [secret] changes
    the family data: after a block write, the installation of a secret, a
    read or a write of the eeprom, a write to [secret_sync] or a read of the
    register page, the shadow of the secret and the registration number are
    what they were. *)
Theorem family_data_is_kept (fuel : nat) (field address : Z)
    (buf data : list Z) (off count : Z) (sl : w1_slave) :
  family_data (snd (eeprom_write_block address data sl)) = family_data sl
  /\ family_data (snd (w1_ds2432_write_secret data sl)) = family_data sl
  /\ family_data (snd (eeprom_read buf off count sl)) = family_data sl
  /\ family_data (snd (eeprom_write fuel buf off count sl)) = family_data sl
  /\ family_data (snd (secret_sync_write buf off count sl)) = family_data sl
  /\ family_data (snd (register_page_read buf off count sl)) = family_data sl
  /\ family_data (snd (write_protect_pages_03_read buf off count sl))
     = family_data sl
  /\ family_data (snd (register_field_read field buf off count sl))
     = family_data sl.
Proof.
  split; [apply (run_elim_family _ _ _ (write_block_runs address data sl))|].
  split; [apply (run_elim_family _ _ _ (write_secret_runs data sl))|].
  split; [apply (run_elim_family _ _ _ (eeprom_read_locked buf off count sl))|].
  split;
    [apply (run_elim_family _ _ _
              (eeprom_write_locked fuel buf off count sl))|].
  split;
    [apply (run_elim_family _ _ _
              (secret_sync_write_locked buf off count sl))|].
  split;
    [apply (run_elim_family _ _ _
              (register_page_read_locked buf off count sl))|].
  split;
    [apply (run_elim_family _ _ _
              (write_protect_pages_03_read_locked buf off count sl))|].
  apply (run_elim_family _ _ _
           (register_field_read_locked field buf off count sl)).
Qed.

(** ** The register page *)




End Driver.

(** * The properties on concrete inputs *)

(** ** The transform on a known block

    The working variables after the eighty rounds over the padded message
    [abc], and the SHA-1 digest of [abc] that the addition of the initial
    state makes of them. *)

Example maxim_sha_transform_abc :
  maxim_sha_transform abc_block
  = Sha1 0x42541b35 0x5738d5e1 0x21834873 0x681e6df6 0xd8fdf6ad.
Proof. vm_compute. reflexivity. Qed.

Example fips180_abc_digest :
  FIPS180.compress abc_block
  = Sha1 0xa9993e36 0x4706816a 0xba3e2571 0x7850c26c 0x9cd0d89d.
Proof. vm_compute. reflexivity. Qed.

Lemma maxim_sha_transform_sha1_rounds_witness :
  length abc_block = 64%nat
  /\ Forall (fun b => 0 <= b < 256) abc_block
  /\ maxim_sha_transform abc_block = FIPS180.working_variables abc_block
  /\ FIPS180.compress abc_block
     = (let s := maxim_sha_transform abc_block in
        Sha1 (u32 (0x67452301 + sha1_a s)) (u32 (0xEFCDAB89 + sha1_b s))
             (u32 (0x98BADCFE + sha1_c s)) (u32 (0x10325476 + sha1_d s))
             (u32 (0xC3D2E1F0 + sha1_e s))).
Proof.
  assert (Hlen : length abc_block = 64%nat) by reflexivity.
  assert (Hall : Forall (fun b => 0 <= b < 256) abc_block)
    by (unfold abc_block; simpl; repeat constructor; lia).
  split; [exact Hlen|]. split; [exact Hall|].
  exact (maxim_sha_transform_sha1_rounds abc_block Hlen Hall).
Defined.

(** ** The authentication message of a block write *)

Example mac_message_example :
  mac_message (secret Mock.family) Mock.block_1 0 Mock.erased_page
    (registration_number Mock.family)
  = [0x00; 0x00; 0x00; 0x00]
    ++ replicate 28 0xFF
    ++ [0x01; 0x02; 0x03; 0x04; 0x05; 0x06; 0x07; 0x08]
    ++ [0x00]
    ++ [0xB3; 0x01; 0x23; 0x45; 0x67; 0x89; 0xAB]
    ++ [0x00; 0x00; 0x00; 0x00]
    ++ [0xFF; 0xFF; 0xFF; 0x80; 0x00; 0x00; 0x00; 0x00; 0x00; 0x00; 0x01; 0xB8].
Proof. vm_compute. reflexivity. Qed.

(** The constant bytes at the end of the message are twelve, not fifteen. *)
Lemma mac_message_padding_is_twelve_bytes :
  let message :=
    mac_message (secret Mock.family) Mock.block_1 0 Mock.erased_page
      (registration_number Mock.family) in
  drop 52 message = mac_padding
  /\ length (drop 52 message) = 12%nat
  /\ length (drop 52 message) <> 15%nat.
Proof. vm_compute. repeat split; discriminate. Qed.

Lemma generate_mac_message_layout_witness :
  length (secret Mock.family) = 8%nat
  /\ length Mock.block_1 = 8%nat
  /\ (28 <= length Mock.erased_page)%nat
  /\ length (registration_number Mock.family) = 8%nat
  /\ (let message :=
        mac_message (secret Mock.family) Mock.block_1 0x68 Mock.erased_page
          (registration_number Mock.family) in
      length message = 64%nat
      /\ take 4 message = take 4 (secret Mock.family)
      /\ take 28 (drop 4 message) = take 28 Mock.erased_page
      /\ take 8 (drop 32 message) = Mock.block_1
      /\ message !! 40%nat = Some (Z.shiftr (Z.land 0x68 0xF0) 5)
      /\ take 7 (drop 41 message) = take 7 (registration_number Mock.family)
      /\ take 4 (drop 48 message) = drop 4 (secret Mock.family)
      /\ drop 52 message
         = [0xFF; 0xFF; 0xFF; 0x80; 0x00; 0x00; 0x00; 0x00; 0x00; 0x00;
            0x01; 0xB8]
      /\ generate_mac (secret Mock.family) Mock.block_1 0x68
           Mock.erased_page (registration_number Mock.family)
         = maxim_sha_transform message).
Proof.
  assert (H1 : length (secret Mock.family) = 8%nat) by reflexivity.
  assert (H2 : length Mock.block_1 = 8%nat) by reflexivity.
  assert (H3 : (28 <= length Mock.erased_page)%nat) by (simpl; lia).
  assert (H4 : length (registration_number Mock.family) = 8%nat)
    by reflexivity.
  split; [exact H1|]. split; [exact H2|]. split; [exact H3|].
  split; [exact H4|].
  exact (generate_mac_message_layout (secret Mock.family) Mock.block_1
           Mock.erased_page (registration_number Mock.family) 0x68
           H1 H2 H3 H4).
Defined.



(** ** Writes against scripted chips *)

(** Eight bytes at address 0, with the checksums verified: one block, the
    chip answers [0xAA], the call returns 8. *)
Example eeprom_write_one_block :
  let r := eeprom_write Mock.bus true Mock.crc16 17 Mock.block_1 0 8
             (Slave Mock.bus Mock.chip_accepts [] Mock.family) in
  fst r = Some 8
  /\ written_blocks (trace Mock.bus (snd r))
     = [[0xF0; 0x00; 0x00];
        [0x0F; 0x00; 0x00; 0x01; 0x02; 0x03; 0x04; 0x05; 0x06; 0x07; 0x08];
        [0xAA];
        [0x55; 0x00; 0x00; 0x07];
        copy_scratchpad_mac
          (generate_mac (secret Mock.family) Mock.block_1 0
             Mock.erased_page (registration_number Mock.family))]
  /\ read_8_bytes (trace Mock.bus (snd r)) = [0xAA].
Proof. vm_compute. repeat split. Qed.

(** The same write to a chip that answers [0xFF]: write-protected. *)
Example eeprom_write_protected :
  fst (eeprom_write Mock.bus true Mock.crc16 17 Mock.block_1 0 8
         (Slave Mock.bus Mock.chip_protected [] Mock.family))
  = Some (- EPERM).
Proof. vm_compute. reflexivity. Qed.

(** Sixteen bytes at offset 0: the chip commits the first block and rejects
    the MAC of the second.  The call returns [-EACCES], not the 8 bytes that
    were committed. *)
Lemma eeprom_write_returns_the_error :
  let r := eeprom_write Mock.bus true Mock.crc16 17
             (Mock.block_1 ++ Mock.block_2) 0 16
             (Slave Mock.bus Mock.chip_rejects_second [] Mock.family) in
  fst r = Some (- EACCES)
  /\ fst r <> Some 8
  /\ read_8_bytes (trace Mock.bus (snd r)) = [0xAA; 0x00].
Proof. vm_compute. repeat split; discriminate. Qed.

Lemma eeprom_write_decomposes_witness :
  let buf := Mock.block_1 ++ Mock.block_2 in
  let sl := Slave Mock.bus Mock.chip_rejects_second [] Mock.family in
  0 = 0 /\ 0 <= 16 <= 128 /\ (17 <= 17)%nat
  /\ eeprom_write Mock.bus true Mock.crc16 17 buf 0 16 sl
     = (let (result, sl') :=
          eeprom_write_by_blocks Mock.bus true Mock.crc16 buf 0 16 sl in
        (Some result, sl')).
Proof.
  intros buf sl.
  assert (H1 : 0 = 0) by reflexivity.
  assert (H2 : 0 <= 16 <= 128) by lia.
  assert (H3 : (17 <= 17)%nat) by lia.
  split; [exact H1|]. split; [exact H2|]. split; [exact H3|].
  exact (eeprom_write_decomposes Mock.bus true Mock.crc16 17 buf 0 16 sl
           H1 H2 H3).
Defined.

(** ** Reads *)

(** A hundred bytes asked for at offset 120: eight are read, from address
    120. *)
Example eeprom_read_truncated :
  let r := eeprom_read Mock.bus [] 120 100
             (Slave Mock.bus Mock.chip_memory [] Mock.family) in
  fst r = (8, [0; 1; 2; 3; 4; 5; 6; 7])
  /\ written_blocks (trace Mock.bus (snd r)) = [[0xF0; 120; 0]].
Proof. vm_compute. repeat split. Qed.

(** An offset beyond the data memory gives the count 0, and [off + 0] is
    more than 128; a count whose sum with the offset wraps around 64 bits
    is returned as it is. *)
Lemma eeprom_read_count_beyond_the_region :
  let sl := Slave Mock.bus Mock.chip_memory [] Mock.family in
  fst (eeprom_read Mock.bus [] 200 10 sl) = (0, [])
  /\ 128 < 200 + 0
  /\ w1_b3_fix_count 1 (2 ^ 64 - 1) W1_DS2432_DATA_MEMORY_SIZE = 2 ^ 64 - 1
  /\ 128 < 1 + (2 ^ 64 - 1)
  /\ 2 ^ 64 - 1 <> 128 - 1.
Proof. vm_compute. repeat split; discriminate. Qed.

Lemma eeprom_read_within_data_memory_witness :
  let sl := Slave Mock.bus Mock.chip_memory [] Mock.family in
  let n := w1_b3_fix_count 120 100 W1_DS2432_DATA_MEMORY_SIZE in
  0 <= 120 < 2 ^ 63 /\ 0 <= 100 < 2 ^ 63
  /\ n = 8
  /\ 120 + n <= 128
  /\ exists evs,
       trace Mock.bus (snd (eeprom_read Mock.bus [] 120 100 sl))
       = trace Mock.bus sl ++ EvMutexLock :: evs ++ [EvMutexUnlock].
Proof.
  intros sl n.
  assert (H1 : 0 <= 120 < 2 ^ 63) by lia.
  assert (H2 : 0 <= 100 < 2 ^ 63) by lia.
  split; [exact H1|]. split; [exact H2|].
  destruct (eeprom_read_within_data_memory Mock.bus [] 120 100 sl H1 H2)
    as (Hn & _ & Hread).
  split; [exact Hn|].
  destruct (Hread ltac:(discriminate)) as (Hle & evs & Htrace & _).
  split; [exact Hle|]. exists evs. exact Htrace.
Defined.

(** ** The synchronisation of the secret *)

(** C9. A chip that answers [0x00] after load-first-secret: the installation
    of the secret fails with [-EIO], and the write to [secret_sync] that ran
    it returns the count it was given, as if the secret were installed. *)
Theorem secret_sync_write_discards_the_failure :
  let sl := Slave Mock.bus Mock.chip_keeps_secret [] Mock.family in
  let r := secret_sync_write Mock.bus true Mock.crc16 [0x31] 0 1 sl in
  fst (w1_ds2432_write_secret Mock.bus true Mock.crc16 (secret Mock.family)
         sl) = - EIO
  /\ fst r = 1
  /\ read_8_bytes (trace Mock.bus (snd r)) = [0x00]
  /\ written_blocks (trace Mock.bus (snd r))
     = [[0x0F; 0x80; 0x00; 0; 0; 0; 0; 0; 0; 0; 0];
        [0xAA];
        [0x5A; 0x80; 0x00; 0x07]].
Proof. vm_compute. repeat split. Qed.

(** ** More properties on concrete inputs *)

Lemma w1_b3_fix_count_at_most_count_witness :
  0 <= 100 < 2 ^ 64 /\ 0 <= 128 < 2 ^ 64
  /\ 0 <= w1_b3_fix_count 120 100 128 <= 100.
Proof.
  assert (H1 : 0 <= 100 < 2 ^ 64) by lia.
  assert (H2 : 0 <= 128 < 2 ^ 64) by lia.
  split; [exact H1|]. split; [exact H2|].
  exact (w1_b3_fix_count_at_most_count 120 100 128 H1 H2).
Defined.

(** The MAC of the known block, computed and written out. *)
Lemma copy_scratchpad_mac_injective_witness :
  let mac := maxim_sha_transform abc_block in
  let mac' := Sha1 0x42541b35 0x5738d5e1 0x21834873 0x681e6df6 0xd8fdf6ad in
  Forall (fun w => 0 <= w < 2 ^ 32) (sha1_words mac)
  /\ Forall (fun w => 0 <= w < 2 ^ 32) (sha1_words mac')
  /\ copy_scratchpad_mac mac = copy_scratchpad_mac mac'
  /\ mac = mac'.
Proof.
  intros mac mac'.
  assert (H2 : Forall (fun w => 0 <= w < 2 ^ 32) (sha1_words mac'))
    by (unfold sha1_words; simpl; repeat constructor; lia).
  assert (H1 : Forall (fun w => 0 <= w < 2 ^ 32) (sha1_words mac))
    by (unfold mac; rewrite maxim_sha_transform_abc; exact H2).
  assert (H3 : copy_scratchpad_mac mac = copy_scratchpad_mac mac')
    by (unfold mac; rewrite maxim_sha_transform_abc; reflexivity).
  split; [exact H1|]. split; [exact H2|]. split; [exact H3|].
  exact (copy_scratchpad_mac_injective mac mac' H1 H2 H3).
Defined.

(** A chip that sends back the scratchpad as it was staged at [0x68]. *)
Lemma scratchpad_address_round_trip_witness :
  let crc := Mock.crc_reply ([0xAA; 0x68; 0x00; 0x07] ++ Mock.block_1) in
  let sl :=
    Slave Mock.bus (Mock.Chip [] ([0x68; 0x00; 0x07] ++ Mock.block_1 ++ crc))
      [] Mock.family in
  let r := w1_ds2432_read_scratchpad Mock.bus true Mock.crc16 (0, 0, []) sl in
  0 <= 0x68 < 2 ^ 16
  /\ snd (fst r) = (0x68, 0x07, Mock.block_1)
  /\ staged_as_sent 0x68 Mock.block_1 (snd (fst r)).
Proof.
  intros crc sl r.
  assert (H1 : 0 <= 0x68 < 2 ^ 16) by lia.
  assert (H2 : trace Mock.bus (snd r)
               = trace Mock.bus sl
                 ++ [EvResetSelect 0;
                     EvWriteBlock [0xAA];
                     EvReadBlock
                       [write_scratchpad_frame 0x68 Mock.block_1 !!! 1%nat;
                        write_scratchpad_frame 0x68 Mock.block_1 !!! 2%nat;
                        0x07];
                     EvReadBlock Mock.block_1;
                     EvReadBlock crc])
    by (vm_compute; reflexivity).
  split; [exact H1|].
  destruct (scratchpad_address_round_trip Mock.bus true Mock.crc16
              0x68 0x07 Mock.block_1 crc (0, 0, []) sl H1 H2)
    as [Hout Hstaged].
  split; [exact Hout|]. apply Hstaged. reflexivity.
Defined.

(** Sixteen bytes written at offset 24 go to the addresses 0 and 8. *)
Lemma eeprom_write_ignores_offset_witness :
  let buf := Mock.block_1 ++ Mock.block_2 in
  let sl := Slave Mock.bus Mock.chip_rejects_second [] Mock.family in
  0 <= 16 <= 128 /\ (17 <= 17)%nat
  /\ eeprom_write Mock.bus true Mock.crc16 17 buf 24 16 sl
     = (let (result, sl') :=
          eeprom_write_by_blocks Mock.bus true Mock.crc16 buf 0 16 sl in
        (Some result, sl')).
Proof.
  intros buf sl.
  assert (H1 : 0 <= 16 <= 128) by lia.
  assert (H2 : (17 <= 17)%nat) by lia.
  split; [exact H1|]. split; [exact H2|].
  exact (eeprom_write_ignores_offset Mock.bus true Mock.crc16 17 buf 24 16 sl
           H1 H2).
Defined.

Lemma eeprom_write_above_248_never_completes_witness :
  let sl := Slave Mock.bus Mock.chip_accepts [] Mock.family in
  248 < 256
  /\ (fst (eeprom_write Mock.bus true Mock.crc16 40 Mock.block_1 0 256 sl)
      = None
      \/ exists e,
           - 13 <= e < 0
           /\ fst (eeprom_write Mock.bus true Mock.crc16 40 Mock.block_1 0
                     256 sl) = Some e).
Proof.
  intros sl.
  assert (H1 : 248 < 256) by lia.
  split; [exact H1|].
  exact (eeprom_write_above_248_never_completes Mock.bus true Mock.crc16 40
           Mock.block_1 0 256 sl H1).
Defined.

Lemma secret_write_read_round_trip_witness :
  let sl := Slave Mock.bus Mock.chip_memory [] Mock.family in
  let sl1 := snd (secret_write Mock.bus Mock.block_1 0 8 sl) in
  (8 <= length Mock.block_1)%nat
  /\ fst (secret_read Mock.bus (replicate 8 0xFF) 0 8 sl1)
     = (8, take 8 Mock.block_1 ++ drop 8 (replicate 8 0xFF)).
Proof.
  intros sl sl1.
  assert (H1 : (8 <= length Mock.block_1)%nat) by (simpl; lia).
  split; [exact H1|].
  exact (proj1 (secret_write_read_round_trip Mock.bus Mock.block_1
                  (replicate 8 0xFF) 0 8 0 8 sl H1)).
Defined.


(** ** The register page of a scripted chip *)




(** The flag of a protected chip, of an unprotected one, and the register
    page read with a count of 4: sixteen bytes are read. *)
Example register_reads :
  let protected := Slave Mock.bus (Mock.Chip [] [0xAA]) [] Mock.family in
  let unprotected := Slave Mock.bus (Mock.Chip [] [0x00]) [] Mock.family in
  let sl := Slave Mock.bus Mock.chip_memory [] Mock.family in
  fst (write_protect_pages_03_read Mock.bus [0] 0 1 protected) = (1, [49])
  /\ fst (write_protect_pages_03_read Mock.bus [0] 0 1 unprotected)
     = (1, [48])
  /\ fst (register_page_read Mock.bus (replicate 16 0) 0 4 sl)
     = (4, map Z.of_nat (seq 0 16))
  /\ written_blocks
       (trace Mock.bus (snd (manufacturer_id_read Mock.bus [0; 0] 0 2 sl)))
     = [[0xF0; 0x8E; 0]].
Proof. vm_compute. repeat split. Qed.

(** A write of 256 bytes to a chip that commits the first block: after one
    iteration the loop is still running, the last event is the status byte
    of the block and the mutex has not been released. *)
Example eeprom_write_still_running :
  let r := eeprom_write Mock.bus true Mock.crc16 1 Mock.block_1 0 256
             (Slave Mock.bus Mock.chip_accepts [] Mock.family) in
  fst r = None
  /\ head (trace Mock.bus (snd r)) = Some EvMutexLock
  /\ last (trace Mock.bus (snd r)) = Some (EvRead8 0xAA).
Proof. vm_compute. repeat split. Qed.
